(** * Request helpers of the Campaign Standard SDK (src/helpers.js)

    A shallow embedding of the four exported helpers [reduceError],
    [createRequestOptions], [requestInterceptor] and [responseInterceptor]
    over a model of JavaScript data values living in a heap.

    - Values are [undefined], [null], booleans, numbers, strings and
      references to heap objects.  Numbers are the integral ones (HTTP
      status codes and the like): [VNum n] is the double nearest to the
      integer [n], and is printed as that double is.  Strings are
      sequences of 8-bit units (UTF-8 text).
    - Heap objects are plain records (own data properties in enumeration
      order) and arrays.  Accessors, functions, symbols, Buffers and
      user-defined [toJSON] or [toString] methods are outside the model.
      A reference that points outside the heap stands for no JavaScript
      value; the printers treat it as an object they have met already.
    - Two references are the same JavaScript reference exactly when their
      locations are equal: identity is equality of values, and a mutation
      is an update of the heap.
    - A helper is a function from the state before the call to its
      outcome: the value returned or the exception raised, with the state
      after the call.  The state is the heap and the messages passed to
      [logger.debug], oldest first.
    - [JSON.stringify] and the conversion to a string are modelled in
      full on these values, with the TypeError of a circular structure
      and the RangeError of a nesting deeper than the engine's stack.
      How deep the stack is depends on the engine: it is a parameter,
      [limits], and what is proved holds for every value of it.
      [JSON.parse] is a parameter of [responseInterceptor]: what is
      proved holds for whatever it answers. *)

From stdpp Require Import gmap strings list fin_maps pretty.

Local Open Scope string_scope.
Local Set Warnings "-register-all".

(** ** Values, objects, heap *)

Definition loc := positive.

Inductive value :=
  | VUndef
  | VNull
  | VBool (b : bool)
  | VNum (n : Z)
  | VStr (s : string)
  | VRef (l : loc).

Inductive object :=
  | OObject (props : list (string * value))
  | OArray (elems : list value).

Abbreviation heap := (gmap loc object).

Global Instance value_eq_dec : EqDecision value.
Proof. solve_decision. Defined.

Global Instance object_eq_dec : EqDecision object.
Proof. solve_decision. Defined.

(** Exceptions a helper can raise (the message is not modelled). *)
Inductive exn := TypeError | SyntaxError | RangeError.

Global Instance exn_eq_dec : EqDecision exn.
Proof. solve_decision. Defined.

(** The state: the heap and the messages passed to [logger.debug]. *)
Record state := State { st_heap : heap; st_log : list string }.

(** ** Language primitives *)

(** ToBoolean.  Every reference is truthy; [0] and the empty string are not. *)
Definition truthy (v : value) : bool :=
  match v with
  | VUndef | VNull => false
  | VBool b => b
  | VNum n => negb (n =? 0)%Z
  | VStr s => negb (String.eqb s EmptyString)
  | VRef _ => true
  end.

(** Own data property of a record, [undefined] when absent. *)
Fixpoint assoc (props : list (string * value)) (k : string) : value :=
  match props with
  | [] => VUndef
  | (k', v) :: rest => if String.eqb k' k then v else assoc rest k
  end.

(** [v.k] for the property names the helpers read ([response], [status],
    [statusText], [body], [ok], [text], [tenantId], [apiKey],
    [accessToken]); none of them is defined on a built-in prototype, so the
    read is the own property for a record and [undefined] for an array or a
    primitive.  Reading from [undefined] or [null] raises a TypeError. *)
Definition Get (h : heap) (v : value) (k : string) : exn + value :=
  match v with
  | VUndef | VNull => inl TypeError
  | VRef l =>
      match h !! l with
      | Some (OObject props) => inr (assoc props k)
      | _ => inr VUndef
      end
  | _ => inr VUndef
  end.

(** ** Numbers

    [VNum n] is the Number written as the integer literal [n]: the double
    nearest to [n], ties to even, or an infinity when [n] is beyond the
    largest double. *)

(** The double nearest to the natural [a], as the integer it is; [None]
    for an overflow to [Infinity]. *)
Definition nearest_double (a : Z) : option Z :=
  if (a <? 2 ^ 53)%Z then Some a
  else
    let shift := (Z.log2 a - 52)%Z in
    let q := Z.shiftr a shift in
    let r := (a - Z.shiftl q shift)%Z in
    let half := Z.shiftl 1 (shift - 1) in
    let q' := if (half <? r)%Z || ((r =? half)%Z && Z.odd q) then (q + 1)%Z else q in
    let x := Z.shiftl q' shift in
    if (2 ^ 1024 <=? x)%Z then None else Some x.

(** The integer [c] denotes the double [x] (at least [2 ^ 53]): it lies in
    the interval of the reals that round to [x], whose ends belong to it
    when the significand of [x] is even. *)
Definition rounds_to (x c : Z) : bool :=
  let e := (Z.log2 x - 52)%Z in
  let m := Z.shiftr x e in
  let up := (2 ^ e)%Z in
  let down := if (m =? 2 ^ 52)%Z then (2 ^ (e - 1))%Z else (2 ^ e)%Z in
  if Z.even m
  then (2 * x - down <=? 2 * c)%Z && (2 * c <=? 2 * x + up)%Z
  else (2 * x - down <? 2 * c)%Z && (2 * c <? 2 * x + up)%Z.

(** The decimal with the fewest significant digits that denotes [x], and
    among those the closest to [x]: multiples of [10 ^ p] are tried from
    the largest [p] down.  At [p = 0] the multiple is [x] itself, so a
    [fuel] of the number of digits of [x] is never exhausted. *)
Fixpoint shortest_decimal (fuel : nat) (p : Z) (x : Z) : Z :=
  match fuel with
  | O => x
  | S f =>
      let u := (10 ^ p)%Z in
      let a := (x / u * u)%Z in
      let b := (a + u)%Z in
      let oka := rounds_to x a in
      let okb := rounds_to x b in
      if oka && okb then
        if (x - a <? b - x)%Z then a
        else if (b - x <? x - a)%Z then b
        else if Z.even (x / u) then a else b
      else if oka then a
      else if okb then b
      else shortest_decimal f (p - 1) x
  end.

Fixpoint strip_zeros (rev_digits : list Ascii.ascii) : list Ascii.ascii :=
  match rev_digits with
  | c :: rest => if (Ascii.nat_of_ascii c =? 48)%nat then strip_zeros rest else rev_digits
  | [] => []
  end.

(** Number::toString of a finite non-negative integral double: its digits
    in full up to twenty-one of them, the exponent form beyond. *)
Definition print_decimal (v : Z) : string :=
  let digits := pretty v in
  let n := String.length digits in
  if (n <=? 21)%nat then digits
  else
    match String.list_ascii_of_string digits with
    | [] => digits
    | d :: rest =>
        let fraction := rev (strip_zeros (rev rest)) in
        String d (match fraction with
                  | [] => EmptyString
                  | _ => "." +:+ String.string_of_list_ascii fraction
                  end)
          +:+ "e+" +:+ pretty (Z.of_nat (n - 1))
    end.

Definition print_natural (a : Z) : string :=
  match nearest_double a with
  | None => "Infinity"
  | Some x =>
      if (x <? 2 ^ 53)%Z then print_decimal x
      else
        let n := String.length (pretty x) in
        print_decimal (shortest_decimal n (Z.of_nat n - 1) x)
  end.

(** Number::toString *)
Definition Number_toString (n : Z) : string :=
  if (n <? 0)%Z then "-" +:+ print_natural (- n) else print_natural n.

(** The number is finite. *)
Definition Number_finite (n : Z) : bool :=
  match nearest_double (Z.abs n) with
  | None => false
  | Some _ => true
  end.

(** Characters that cannot be written inside a string literal. *)
Definition nl : string := String (Ascii.ascii_of_nat 10) EmptyString.
Definition dquote : string := String (Ascii.ascii_of_nat 34) EmptyString.
Definition bslash : string := String (Ascii.ascii_of_nat 92) EmptyString.

(** How much nesting the stack of the engine leaves to [JSON.stringify]
    and to [Array.prototype.join], beyond the [min_stack_depth] levels
    every engine follows. *)
Record stack_limits := StackLimits { stringify_headroom : nat; join_headroom : nat }.

Definition min_stack_depth : nat := 16.

Section Engine.

Variable limits : stack_limits.

Definition stack_depth : nat := min_stack_depth + stringify_headroom limits.
Definition join_depth : nat := min_stack_depth + join_headroom limits.

(** The record has an own property [k]. *)
Definition has_own (props : list (string * value)) (k : string) : bool :=
  existsb (λ p, String.eqb p.1 k) props.

(** The elements of an array as [join] prints them: [undefined] and [null]
    as empty, the others by [rec]. *)
Fixpoint join_elems (rec : value → exn + string) (elems : list value)
    : exn + list string :=
  match elems with
  | [] => inr []
  | e :: rest =>
      match (match e with
             | VUndef | VNull => inr EmptyString
             | _ => rec e
             end) with
      | inl x => inl x
      | inr s =>
          match join_elems rec rest with
          | inl x => inl x
          | inr strs => inr (s :: strs)
          end
      end
  end.

(** ToString, as applied by a template literal.  A record prints as
    [[object Object]], unless an own property hides
    [Object.prototype.toString]: the values of the model are not
    callable, and the conversion raises a TypeError.  An array joins its
    elements with commas, printing an array that is already being joined
    as empty, and raises the RangeError of an exhausted stack when arrays
    are nested deeper than [depth].  [rem] is the heap without the arrays
    being joined. *)
Fixpoint ToString_go (depth : nat) (rem : heap) (v : value) : exn + string :=
  match v with
  | VUndef => inr "undefined"
  | VNull => inr "null"
  | VBool true => inr "true"
  | VBool false => inr "false"
  | VNum n => inr (Number_toString n)
  | VStr s => inr s
  | VRef l =>
      match rem !! l with
      | None => inr EmptyString
      | Some (OObject props) =>
          if has_own props "toString" then inl TypeError
          else inr "[object Object]"
      | Some (OArray elems) =>
          match depth with
          | O => inl RangeError
          | S d =>
              match join_elems (ToString_go d (delete l rem)) elems with
              | inl x => inl x
              | inr strs => inr (String.concat "," strs)
              end
          end
      end
  end.

Definition ToString (h : heap) (v : value) : exn + string :=
  ToString_go join_depth h v.

(** ** JSON.stringify *)

(** A JSON text as a tree.  A number is carried by its decimal rendering,
    which is all that serialisation uses of it. *)
Inductive json :=
  | JNull
  | JBool (b : bool)
  | JNum (repr : string)
  | JStr (s : string)
  | JArr (items : list json)
  | JObj (members : list (string * json)).

Definition hex_digit (n : nat) : string :=
  String (Ascii.ascii_of_nat (if (n <? 10)%nat then (48 + n)%nat else (87 + n)%nat)) EmptyString.

(** QuoteJSONString, one code unit at a time. *)
Definition quote_unit (c : Ascii.ascii) : string :=
  let n := Ascii.nat_of_ascii c in
  if (n =? 8)%nat then bslash +:+ "b"
  else if (n =? 9)%nat then bslash +:+ "t"
  else if (n =? 10)%nat then bslash +:+ "n"
  else if (n =? 12)%nat then bslash +:+ "f"
  else if (n =? 13)%nat then bslash +:+ "r"
  else if (n =? 34)%nat then bslash +:+ dquote
  else if (n =? 92)%nat then bslash +:+ bslash
  else if (n <? 32)%nat
  then bslash +:+ "u00" +:+ hex_digit (n / 16)%nat +:+ hex_digit (n mod 16)%nat
  else String c EmptyString.

Fixpoint quote_units (s : string) : string :=
  match s with
  | EmptyString => EmptyString
  | String c rest => quote_unit c +:+ quote_units rest
  end.

Definition QuoteJSONString (s : string) : string :=
  dquote +:+ quote_units s +:+ dquote.

(** The closing steps of SerializeJSONObject and SerializeJSONArray:
    [partial] holds the serialised members, [stepback] the indentation of
    the enclosing level. *)
Definition wrap (opening closing gap stepback : string) (partial : list string) : string :=
  match partial with
  | [] => opening +:+ closing
  | _ =>
      if String.eqb gap EmptyString
      then opening +:+ String.concat "," partial +:+ closing
      else
        let indent := stepback +:+ gap in
        opening +:+ nl +:+ indent
          +:+ String.concat ("," +:+ nl +:+ indent) partial
          +:+ nl +:+ stepback +:+ closing
  end.

Fixpoint print_json (gap indent : string) (j : json) : string :=
  match j with
  | JNull => "null"
  | JBool true => "true"
  | JBool false => "false"
  | JNum repr => repr
  | JStr s => QuoteJSONString s
  | JArr items =>
      wrap "[" "]" gap indent (map (print_json gap (indent +:+ gap)) items)
  | JObj members =>
      wrap "{" "}" gap indent
        (map (λ m, QuoteJSONString (fst m) +:+ ":"
                     +:+ (if String.eqb gap EmptyString then EmptyString else " ")
                     +:+ print_json gap (indent +:+ gap) (snd m))
             members)
  end.

(** SerializeJSONProperty reads the value out of the heap.  [inr None] is
    the [undefined] result (the property is left out of a record and
    printed as [null] in an array); a number that is not finite is
    printed as [null].  An object is pushed on the stack of the objects
    being serialised: the push raises the RangeError of an exhausted
    stack when the object is nested deeper than [depth], and the TypeError
    of a circular structure when the object is on the stack already.
    [rem] is the heap without the objects on the stack. *)
Fixpoint snapshot_elems (rec : value → exn + option json)
    (elems : list value) : exn + list json :=
  match elems with
  | [] => inr []
  | e :: rest =>
      match rec e with
      | inl x => inl x
      | inr oj =>
          match snapshot_elems rec rest with
          | inl x => inl x
          | inr js => inr (default JNull oj :: js)
          end
      end
  end.

Fixpoint snapshot_props (rec : value → exn + option json)
    (props : list (string * value)) : exn + list (string * json) :=
  match props with
  | [] => inr []
  | (k, v) :: rest =>
      match rec v with
      | inl x => inl x
      | inr oj =>
          match snapshot_props rec rest with
          | inl x => inl x
          | inr ms => inr (match oj with Some j => (k, j) :: ms | None => ms end)
          end
      end
  end.

Fixpoint snapshot_go (depth : nat) (rem : heap) (v : value) : exn + option json :=
  match v with
  | VUndef => inr None
  | VNull => inr (Some JNull)
  | VBool b => inr (Some (JBool b))
  | VNum n => inr (Some (if Number_finite n then JNum (Number_toString n) else JNull))
  | VStr s => inr (Some (JStr s))
  | VRef l =>
      match depth with
      | O => inl RangeError
      | S d =>
          match rem !! l with
          | None => inl TypeError
          | Some (OArray elems) =>
              match snapshot_elems (snapshot_go d (delete l rem)) elems with
              | inl x => inl x
              | inr js => inr (Some (JArr js))
              end
          | Some (OObject props) =>
              match snapshot_props (snapshot_go d (delete l rem)) props with
              | inl x => inl x
              | inr ms => inr (Some (JObj ms))
              end
          end
      end
  end.

Definition snapshot (h : heap) (v : value) : exn + option json :=
  snapshot_go stack_depth h v.

(** [JSON.stringify(v, null, gap)]: a string, [undefined], the TypeError of
    a circular structure or the RangeError of too deep a nesting. *)
Definition JSON_stringify (h : heap) (gap : string) (v : value) : exn + value :=
  match snapshot h v with
  | inl x => inl x
  | inr (Some j) => inr (VStr (print_json gap EmptyString j))
  | inr None => inr VUndef
  end.

(** How many arrays and records of a parsed text lie inside one another. *)
Fixpoint json_depth (j : json) : nat :=
  match j with
  | JArr items => S (max_list (map json_depth items))
  | JObj members => S (max_list (map (λ m, json_depth (snd m)) members))
  | _ => O
  end.

(** [JSON.stringify(v, null, gap)] of the value [v] that [JSON.parse] has
    built from a text.  Such a value holds no cycle; it is printed, or
    raises the RangeError of an exhausted stack when it is nested deeper
    than the stack. *)
Definition JSON_stringify_parsed (gap : string) (parsed : json) : exn + string :=
  if (json_depth parsed <=? stack_depth)%nat
  then inr (print_json gap EmptyString parsed)
  else inl RangeError.

(** ** Computations: state passing with exceptions *)

Inductive outcome (A : Type) :=
  | Return (a : A) (s : state)
  | Throw (e : exn) (s : state).
#[global] Arguments Return {A} a s.
#[global] Arguments Throw {A} e s.

Definition M (A : Type) : Type := state → outcome A.

Global Instance M_ret : MRet M := λ A a s, Return a s.
Global Instance M_bind : MBind M := λ A B f m s,
  match m s with
  | Return a s' => f a s'
  | Throw e s' => Throw e s'
  end.

Definition lift {A} (f : heap → exn + A) : M A := λ s,
  match f (st_heap s) with
  | inl e => Throw e s
  | inr a => Return a s
  end.

(** [v.k] *)
Definition get_prop (v : value) (k : string) : M value :=
  lift (λ h, Get h v k).

(** A template-literal substitution. *)
Definition to_string (v : value) : M string :=
  lift (λ h, ToString h v).

(** [JSON.stringify(v)] and [JSON.stringify(v, null, 2)]. *)
Definition stringify (gap : string) (v : value) : M value :=
  lift (λ h, JSON_stringify h gap v).

(** An object literal: a new object at a location not yet in the heap. *)
Definition alloc (o : object) : M value := λ s,
  let l := fresh (dom (st_heap s)) in
  Return (VRef l) (State (<[l := o]> (st_heap s)) (st_log s)).

(** [logger.debug(msg)] *)
Definition logger_debug (msg : string) : M unit := λ s,
  Return () (State (st_heap s) (st_log s ++ [msg])).

(** A parameter default: [p = d] evaluates [d] only for [undefined]. *)
Definition default_param (arg : value) (d : M value) : M value :=
  match arg with
  | VUndef => d
  | _ => mret arg
  end.

(** [a && b] *)
Definition and_then (a b : M value) : M value :=
  x ← a; if truthy x then b else mret x.

(** ** The helpers *)

(** [function reduceError (error = {})] *)
Definition reduceError (arg : value) : M value :=
  error ← default_param arg (alloc (OObject []));
  (* const response = error.response *)
  response ← get_prop error "response";
  (* if (response) *)
  if truthy response then
    (* if (response.status && response.statusText && response.body) *)
    c ← and_then (and_then (get_prop response "status")
                           (get_prop response "statusText"))
                 (get_prop response "body");
    if truthy c then
      (* return `${response.status} - ${response.statusText}
                 (${JSON.stringify(response.body)})` *)
      status ← get_prop response "status";
      s1 ← to_string status;
      statusText ← get_prop response "statusText";
      s2 ← to_string statusText;
      body ← get_prop response "body";
      j ← stringify EmptyString body;
      s3 ← to_string j;
      mret (VStr (s1 +:+ " - " +:+ s2 +:+ " (" +:+ s3 +:+ ")"))
    else mret error
  (* return error *)
  else mret error.

(** [function createRequestOptions ({ tenantId, apiKey, accessToken,
    body = {} })]: the argument is destructured, which raises a TypeError
    on [undefined] and [null]; then the literal is built, inner objects
    first. *)
Definition createRequestOptions (params : value) : M value :=
  tenantId ← get_prop params "tenantId";
  apiKey ← get_prop params "apiKey";
  accessToken ← get_prop params "accessToken";
  b ← get_prop params "body";
  body ← default_param b (alloc (OObject []));
  bearer ← alloc (OObject [("value", accessToken)]);
  apikey ← alloc (OObject [("value", apiKey)]);
  authorized ← alloc (OObject [("BearerAuth", bearer); ("ApiKeyAuth", apikey)]);
  securities ← alloc (OObject [("authorized", authorized)]);
  serverVariables ← alloc (OObject [("ORGANIZATION", tenantId)]);
  alloc (OObject [("requestBody", body); ("securities", securities);
                  ("serverVariables", serverVariables)]).

(** [function requestInterceptor (req)] *)
Definition requestInterceptor (req : value) : M value :=
  (* logger.debug(`REQUEST:\n ${JSON.stringify(req, null, 2)}`) *)
  j ← stringify "  " req;
  s ← to_string j;
  _ ← logger_debug ("REQUEST:" +:+ nl +:+ " " +:+ s);
  (* return req *)
  mret req.

(** [v.toString('utf-8')]: the receiver's own [toString].  A string is
    returned as it is and a boolean printed; a record or an array ignores
    the argument and prints, or fails, as [ToString] does; a number takes the
    argument for a radix, which ['utf-8'] is not (RangeError); there is no
    receiver in [undefined] or [null] (TypeError). *)
Definition toString_utf8 (h : heap) (v : value) : exn + string :=
  match v with
  | VUndef | VNull => inl TypeError
  | VNum _ => inl RangeError
  | _ => ToString h v
  end.

Section Interceptor.

(** [JSON.parse]: the parsed text, or [None] for a SyntaxError. *)
Variable JSON_parse : string → option json.

(** The [try] block of [responseInterceptor].  The local variable [text]
    is threaded by hand: the first component is its value when the block
    is left, normally or by an exception. *)
Definition try_block (res : value) (s : state) : value * outcome unit :=
  (* let text *)
  let text := VUndef in
  (* text = res.text.toString('utf-8') *)
  match (t ← get_prop res "text"; lift (λ h, toString_utf8 h t)) s with
  | Throw e s1 => (text, Throw e s1)
  | Return d s1 =>
      let text := VStr d in
      (* logger.debug(`DATA\n, ${JSON.stringify(JSON.parse(text), null, 2)}`) *)
      match JSON_parse d with
      | None => (text, Throw SyntaxError s1)
      | Some parsed =>
          match JSON_stringify_parsed "  " parsed with
          | inl e => (text, Throw e s1)
          | inr j => (text, logger_debug ("DATA" +:+ nl +:+ ", " +:+ j) s1)
          end
      end
  end.

(** [try { ... } catch (e) { logger.debug(`DATA\n ${text}`) }] *)
Definition try_catch_block (res : value) : M unit := λ s,
  match try_block res s with
  | (_, Return u s') => Return u s'
  | (text, Throw _ s') =>
      (t ← to_string text; logger_debug ("DATA" +:+ nl +:+ " " +:+ t)) s'
  end.

(** [function responseInterceptor (res)] *)
Definition responseInterceptor (res : value) : M value :=
  (* logger.debug(`RESPONSE:\n ${JSON.stringify(res, null, 2)}`) *)
  j ← stringify "  " res;
  s ← to_string j;
  _ ← logger_debug ("RESPONSE:" +:+ nl +:+ " " +:+ s);
  (* if (res.ok) *)
  ok ← get_prop res "ok";
  _ ← (if truthy ok then try_catch_block res else mret ());
  (* return res *)
  mret res.

End Interceptor.

(** ** Vocabulary of the statements *)

(** [v.k] where the read cannot fail; [undefined] stands for "absent". *)
Definition field (h : heap) (v : value) (k : string) : value :=
  match Get h v k with
  | inr x => x
  | inl _ => VUndef
  end.

(** The error carries a response whose status, statusText and body are all
    present and truthy. *)
Definition complete_response (h : heap) (e : value) : bool :=
  let response := field h e "response" in
  truthy response
  && truthy (field h response "status")
  && truthy (field h response "statusText")
  && truthy (field h response "body").

(** The string reduceError builds from the printed status and statusText
    and the serialisation [j] of the body. *)
Definition formatted (status statusText j : string) : string :=
  status +:+ " - " +:+ statusText +:+ " (" +:+ j +:+ ")".

(** [ToString] does not raise on [v]. *)
Definition printable (h : heap) (v : value) : bool :=
  match ToString h v with
  | inl _ => false
  | inr _ => true
  end.

(** [v] is neither [undefined] nor [null]. *)
Definition non_nullish (v : value) : bool :=
  match v with
  | VUndef | VNull => false
  | _ => true
  end.

(** [JSON.stringify] does not raise on [v]: no object reachable from [v]
    contains itself, and none is nested deeper than the stack allows. *)
Definition serializable (h : heap) (v : value) : bool :=
  match snapshot h v with
  | inl _ => false
  | inr _ => true
  end.

(** What an object holds: the elements of an array, the values of the
    properties of a record. *)
Definition children (o : object) : list value :=
  match o with
  | OObject props => props.*2
  | OArray elems => elems
  end.

(** [nesting h v ls]: going down from [v], [ls] are the objects met, each
    one held by the one before it.  The last one is only referred to, and
    need not be in the heap. *)
Inductive nesting (h : heap) : value → list loc → Prop :=
  | nesting_last l : nesting h (VRef l) [l]
  | nesting_step l o v ls :
      h !! l = Some o → v ∈ children o → nesting h v ls →
      nesting h (VRef l) (l :: ls).

(** A nesting that [JSON.stringify] cannot follow with a stack of [depth]
    objects: it is longer than the stack, it meets an object twice, or it
    ends outside the heap. *)
Definition blocking (depth : nat) (h : heap) (ls : list loc) : Prop :=
  (depth < length ls)%nat ∨ ¬ NoDup ls ∨ ∃ l, last ls = Some l ∧ h !! l = None.

(** The shape of an object graph: a record with exactly the listed keys, in
    order, down to values given as they are. *)
Inductive shape :=
  | SVal (v : value)
  | SObj (fields : list (string * shape)).

Inductive has_shape (h : heap) : value → shape → Prop :=
  | has_shape_val v : has_shape h v (SVal v)
  | has_shape_obj l props fields :
      h !! l = Some (OObject props) →
      Forall2 (λ p f, p.1 = f.1 ∧ has_shape h p.2 f.2) props fields →
      has_shape h (VRef l) (SObj fields).

(** The request options literal of createRequestOptions. *)
Definition request_options_shape (body : shape) (tenantId apiKey accessToken : value) : shape :=
  SObj [("requestBody", body);
        ("securities",
          SObj [("authorized",
                  SObj [("BearerAuth", SObj [("value", SVal accessToken)]);
                        ("ApiKeyAuth", SObj [("value", SVal apiKey)])])]);
        ("serverVariables", SObj [("ORGANIZATION", SVal tenantId)])].

(** The assignment [o.k = v] on the record at [l], as a caller may perform
    it after a helper has returned. *)
Fixpoint assoc_set (props : list (string * value)) (k : string) (v : value)
    : list (string * value) :=
  match props with
  | [] => [(k, v)]
  | (k', v') :: rest =>
      if String.eqb k' k then (k', v) :: rest else (k', v') :: assoc_set rest k v
  end.

Definition store_prop (h : heap) (l : loc) (k : string) (v : value) : heap :=
  match h !! l with
  | Some (OObject props) => <[l := OObject (assoc_set props k v)]> h
  | _ => h
  end.

(** The outcome of a computation with [pre] put in front of its log. *)
Definition relog {A} (pre : list string) (o : outcome A) : outcome A :=
  match o with
  | Return a s => Return a (State (st_heap s) (pre ++ st_log s))
  | Throw e s => Throw e (State (st_heap s) (pre ++ st_log s))
  end.

(** A computation that consults no earlier log line: started with a log
    [lg] it does what it does from the empty log, after [lg]. *)
Definition log_independent {A} (m : M A) : Prop :=
  ∀ h lg, m (State h lg) = relog lg (m (State h [])).

(** What a template literal prints of [JSON.stringify(v, null, 2)]. *)
Definition stringified (h : heap) (v : value) : string :=
  match JSON_stringify h "  " v with
  | inr (VStr j) => j
  | _ => "undefined"
  end.

(** The line every call of an interceptor starts with, and the two debug
    lines of responseInterceptor's [if (res.ok)] block. *)
Definition response_line (h : heap) (res : value) : string :=
  "RESPONSE:" +:+ nl +:+ " " +:+ stringified h res.
Definition request_line (h : heap) (req : value) : string :=
  "REQUEST:" +:+ nl +:+ " " +:+ stringified h req.
Definition data_line (parsed : json) : string :=
  "DATA" +:+ nl +:+ ", " +:+ print_json "  " EmptyString parsed.
Definition raw_data_line (text : string) : string :=
  "DATA" +:+ nl +:+ " " +:+ text.

(** The line the [if (res.ok)] block of responseInterceptor writes: the
    parsed text, or the raw text when it does not parse or is nested
    deeper than the stack once parsed, or [undefined] when there is no
    text to decode. *)
Definition ok_block_line (JSON_parse : string → option json) (h : heap) (res : value)
    : string :=
  match toString_utf8 h (field h res "text") with
  | inl _ => raw_data_line "undefined"
  | inr text =>
      match JSON_parse text with
      | Some parsed =>
          if (json_depth parsed <=? stack_depth)%nat then data_line parsed
          else raw_data_line text
      | None => raw_data_line text
      end
  end.

(** ** A JSON reader for running the interceptor

    The statements about [responseInterceptor] hold for every behaviour
    of [JSON.parse].  To run the interceptor on concrete texts,
    [JSON_parse_fragment] reads the JSON texts whose numbers are integer
    literals of at most fifteen digits, whose strings use the one-letter
    escapes only and whose member names are neither repeated nor made of
    digits only; it answers [None] on any other text. *)

Definition code (c : Ascii.ascii) : nat := Ascii.nat_of_ascii c.

Definition is_ws (c : Ascii.ascii) : bool :=
  ((code c =? 32) || (code c =? 9) || (code c =? 10) || (code c =? 13))%nat.

Definition is_digit (c : Ascii.ascii) : bool :=
  ((48 <=? code c) && (code c <=? 57))%nat.

Fixpoint skip_ws (s : string) : string :=
  match s with
  | String c rest => if is_ws c then skip_ws rest else s
  | EmptyString => s
  end.

(** The rest of [s] after the prefix [lit]. *)
Fixpoint expect (lit s : string) : option string :=
  match lit, s with
  | EmptyString, _ => Some s
  | String a lit', String b s' => if Ascii.eqb a b then expect lit' s' else None
  | String _ _, EmptyString => None
  end.

Fixpoint take_digits (s : string) : string * string :=
  match s with
  | String c rest =>
      if is_digit c
      then let '(ds, r) := take_digits rest in (String c ds, r)
      else (EmptyString, s)
  | EmptyString => (EmptyString, s)
  end.

Definition starts_fraction (s : string) : bool :=
  match s with
  | String c _ => ((code c =? 46) || (code c =? 101) || (code c =? 69))%nat
  | EmptyString => false
  end.

Definition parse_number (s : string) : option (json * string) :=
  let '(neg, s1) :=
    match s with
    | String c r => if (code c =? 45)%nat then (true, r) else (false, s)
    | EmptyString => (false, s)
    end in
  let '(ds, rest) := take_digits s1 in
  match ds with
  | EmptyString => None
  | String d0 more =>
      if (code d0 =? 48)%nat
      then match more with
           | EmptyString => if starts_fraction rest then None else Some (JNum "0", rest)
           | String _ _ => None
           end
      else if (15 <? String.length ds)%nat || starts_fraction rest then None
      else Some (JNum ((if neg then "-" else EmptyString) +:+ ds), rest)
  end.

Definition unescape (c : Ascii.ascii) : option Ascii.ascii :=
  let n := code c in
  if ((n =? 34) || (n =? 92) || (n =? 47))%nat then Some c
  else if (n =? 98)%nat then Some (Ascii.ascii_of_nat 8)
  else if (n =? 102)%nat then Some (Ascii.ascii_of_nat 12)
  else if (n =? 110)%nat then Some (Ascii.ascii_of_nat 10)
  else if (n =? 114)%nat then Some (Ascii.ascii_of_nat 13)
  else if (n =? 116)%nat then Some (Ascii.ascii_of_nat 9)
  else None.

(** The characters of a string literal after its opening quote. *)
Fixpoint parse_string_body (s : string) : option (string * string) :=
  match s with
  | EmptyString => None
  | String c rest =>
      if (code c =? 34)%nat then Some (EmptyString, rest)
      else if (code c =? 92)%nat then
        match rest with
        | String e rest' =>
            u ← unescape e;
            '(str, r) ← parse_string_body rest';
            Some (String u str, r)
        | EmptyString => None
        end
      else if (code c <? 32)%nat then None
      else '(str, r) ← parse_string_body rest; Some (String c str, r)
  end.

Fixpoint all_digits (s : string) : bool :=
  match s with
  | EmptyString => true
  | String c rest => is_digit c && all_digits rest
  end.

Definition starts_with (n : nat) (s : string) : option string :=
  match s with
  | String c rest => if (code c =? n)%nat then Some rest else None
  | EmptyString => None
  end.

Fixpoint parse_value (fuel : nat) (s : string) : option (json * string) :=
  match fuel with
  | O => None
  | S f =>
      match skip_ws s with
      | EmptyString => None
      | String c rest as s' =>
          if (code c =? 34)%nat then
            '(str, r) ← parse_string_body rest; Some (JStr str, r)
          else if (code c =? 91)%nat then
            match starts_with 93 (skip_ws rest) with
            | Some r => Some (JArr [], r)
            | None => '(js, r) ← parse_elements f rest; Some (JArr js, r)
            end
          else if (code c =? 123)%nat then
            match starts_with 125 (skip_ws rest) with
            | Some r => Some (JObj [], r)
            | None => '(ms, r) ← parse_members f rest; Some (JObj ms, r)
            end
          else if (code c =? 110)%nat then r ← expect "null" s'; Some (JNull, r)
          else if (code c =? 116)%nat then r ← expect "true" s'; Some (JBool true, r)
          else if (code c =? 102)%nat then r ← expect "false" s'; Some (JBool false, r)
          else parse_number s'
      end
  end
with parse_elements (fuel : nat) (s : string) : option (list json * string) :=
  match fuel with
  | O => None
  | S f =>
      '(j, r) ← parse_value f s;
      match skip_ws r with
      | String c r' =>
          if (code c =? 44)%nat then
            '(js, r'') ← parse_elements f r'; Some (j :: js, r'')
          else if (code c =? 93)%nat then Some ([j], r')
          else None
      | EmptyString => None
      end
  end
with parse_members (fuel : nat) (s : string) : option (list (string * json) * string) :=
  match fuel with
  | O => None
  | S f =>
      r0 ← starts_with 34 (skip_ws s);
      '(k, r1) ← parse_string_body r0;
      r2 ← starts_with 58 (skip_ws r1);
      '(j, r3) ← parse_value f r2;
      if all_digits k then None
      else
        match skip_ws r3 with
        | String c r' =>
            if (code c =? 44)%nat then
              '(ms, r'') ← parse_members f r';
              if bool_decide (k ∈ ms.*1) then None else Some ((k, j) :: ms, r'')
            else if (code c =? 125)%nat then Some ([(k, j)], r')
            else None
        | EmptyString => None
        end
  end.

Definition JSON_parse_fragment (text : string) : option json :=
  '(j, r) ← parse_value (2 * String.length text + 2) text;
  match skip_ws r with
  | EmptyString => Some j
  | String _ _ => None
  end.

(** ** Sample heaps *)

(** [{response: {status: 404, statusText: 'Not Found', body: {error: 'x'}}}]
    at location 1. *)
Definition heap_http_error : heap :=
  <[1%positive := OObject [("response", VRef 2%positive)]]>
  (<[2%positive := OObject [("status", VNum 404); ("statusText", VStr "Not Found");
                            ("body", VRef 3%positive)]]>
  (<[3%positive := OObject [("error", VStr "x")]]> ∅)).

(** The same error with [body.self = body]. *)
Definition heap_circular_body : heap :=
  <[3%positive := OObject [("error", VStr "x"); ("self", VRef 3%positive)]]>
    heap_http_error.

(** [{response: {status: 404, body: {error: 'x'}}}]: no statusText. *)
Definition heap_partial_error : heap :=
  <[2%positive := OObject [("status", VNum 404); ("body", VRef 3%positive)]]>
    heap_http_error.

(** [{tenantId: 'T', apiKey: 'K', accessToken: 'A'}] at location 1. *)
Definition heap_params : heap :=
  <[1%positive := OObject [("tenantId", VStr "T"); ("apiKey", VStr "K");
                           ("accessToken", VStr "A")]]> ∅.

(** [{tenantId: 'T', apiKey: 'K', accessToken: 'A', body: {x: 1}}] at
    location 1, the body at location 2. *)
Definition heap_params_body : heap :=
  <[1%positive := OObject [("tenantId", VStr "T"); ("apiKey", VStr "K");
                           ("accessToken", VStr "A"); ("body", VRef 2%positive)]]>
  (<[2%positive := OObject [("x", VNum 1)]]> ∅).

(** Responses at location 1: [{ok: true, text: '{"a":1}'}],
    [{ok: true, text: 'not json'}], [{ok: false, text: 'not json'}],
    [{ok: true}] and a response with [res.self = res]. *)
Definition json_text : string :=
  "{" +:+ dquote +:+ "a" +:+ dquote +:+ ":1}".
Definition heap_response_json : heap :=
  <[1%positive := OObject [("ok", VBool true); ("text", VStr json_text)]]> ∅.
Definition heap_response_text : heap :=
  <[1%positive := OObject [("ok", VBool true); ("text", VStr "not json")]]> ∅.
Definition heap_response_failed : heap :=
  <[1%positive := OObject [("ok", VBool false); ("text", VStr "not json")]]> ∅.
Definition heap_response_no_text : heap :=
  <[1%positive := OObject [("ok", VBool true)]]> ∅.
Definition heap_response_circular : heap :=
  <[1%positive := OObject [("ok", VBool true); ("text", VStr json_text);
                           ("self", VRef 1%positive)]]> ∅.

(** Requests at location 1: [{method: 'GET', url: '/profile'}] and a
    request with [req.self = req]. *)
Definition heap_request : heap :=
  <[1%positive := OObject [("method", VStr "GET"); ("url", VStr "/profile")]]> ∅.
Definition heap_request_circular : heap :=
  <[1%positive := OObject [("method", VStr "GET"); ("self", VRef 1%positive)]]> ∅.

(** An engine with no headroom, to run the helpers on the samples. *)
Definition sample_limits : stack_limits := StackLimits 0 0.

(** A response whose text is seventeen arrays in one another. *)
Definition deep_json_text : string := "[[[[[[[[[[[[[[[[[]]]]]]]]]]]]]]]]]".
Definition heap_response_deep : heap :=
  <[1%positive := OObject [("ok", VBool true); ("text", VStr deep_json_text)]]> ∅.

(** [n] arrays nested in one another, the outermost at location 1:
    [[[...[]...]]]. *)
Fixpoint heap_nested_from (l : positive) (n : nat) : heap :=
  match n with
  | O => ∅
  | S O => {[l := OArray []]}
  | S m => <[l := OArray [VRef (Pos.succ l)]]> (heap_nested_from (Pos.succ l) m)
  end.

(** ** Vocabulary of the further properties *)

(** The state a computation ends in, by a return or by an exception. *)
Definition final_state {A} (o : outcome A) : state :=
  match o with
  | Return _ s => s
  | Throw _ s => s
  end.

(** The computation ended by an exception. *)
Definition raises {A} (o : outcome A) : bool :=
  match o with
  | Return _ _ => false
  | Throw _ _ => true
  end.

(** The JSON document of the request options built from three strings and
    no body. *)
Definition request_options_json (tenantId apiKey accessToken : string) : json :=
  JObj [("requestBody", JObj []);
        ("securities",
          JObj [("authorized",
                  JObj [("BearerAuth", JObj [("value", JStr accessToken)]);
                        ("ApiKeyAuth", JObj [("value", JStr apiKey)])])]);
        ("serverVariables", JObj [("ORGANIZATION", JStr tenantId)])].

(** What [JSON.stringify(v, null, 2)] prints for a value that is not a
    reference. *)
Definition primitive_json (v : value) : string :=
  match v with
  | VUndef => "undefined"
  | VNull => "null"
  | VBool true => "true"
  | VBool false => "false"
  | VNum n => if Number_finite n then Number_toString n else "null"
  | VStr s => QuoteJSONString s
  | VRef _ => EmptyString
  end.

(** Two errors at locations 1 and 4 that share the response at location 2,
    the second with a [code] of its own. *)
Definition heap_two_errors : heap :=
  <[4%positive := OObject [("code", VStr "ECONNRESET"); ("response", VRef 2%positive)]]>
    heap_http_error.

(** [{ok: true, text: 42}] at location 1. *)
Definition heap_response_number : heap :=
  <[1%positive := OObject [("ok", VBool true); ("text", VNum 42)]]> ∅.

(** The heap createRequestOptions leaves: the six records of the literal,
    at the locations given, on top of the heap [h0] that holds the body. *)
Definition request_options_heap (h0 : heap) (body tenantId apiKey accessToken : value)
    (bearer apikey authorized securities serverVariables options : loc) : heap :=
  <[options := OObject [("requestBody", body); ("securities", VRef securities);
                        ("serverVariables", VRef serverVariables)]]>
  (<[serverVariables := OObject [("ORGANIZATION", tenantId)]]>
  (<[securities := OObject [("authorized", VRef authorized)]]>
  (<[authorized := OObject [("BearerAuth", VRef bearer); ("ApiKeyAuth", VRef apikey)]]>
  (<[apikey := OObject [("value", apiKey)]]>
  (<[bearer := OObject [("value", accessToken)]]> h0))))).

(** ** The printers and their exceptions *)

#[local] Arguments ToString : simpl never.

(** The conversion to a string of a value that is not a reference. *)
Lemma ToString_str h s : ToString h (VStr s) = inr s.
Proof. unfold ToString. by destruct join_depth. Qed.

Lemma ToString_undefined h : ToString h VUndef = inr "undefined".
Proof. unfold ToString. by destruct join_depth. Qed.

(** The exceptions of the conversion are the TypeError of a hidden
    [toString] and the RangeError of an exhausted stack. *)
Lemma join_elems_exn rec elems x :
  (∀ v y, rec v = inl y → y = TypeError ∨ y = RangeError) →
  join_elems rec elems = inl x → x = TypeError ∨ x = RangeError.
Proof.
  intros Hrec. induction elems as [|e rest IH]; simpl; [done|].
  destruct (match e with VUndef | VNull => inr EmptyString | _ => rec e end)
    as [y|s] eqn:He.
  - intros [= <-]. destruct e; try done; eauto.
  - destruct (join_elems rec rest) as [y|strs]; [|done].
    intros [= <-]. by apply IH.
Qed.

Lemma ToString_go_exn depth : ∀ (rem : heap) v x,
  ToString_go depth rem v = inl x → x = TypeError ∨ x = RangeError.
Proof.
  induction depth as [|d IH]; intros rem v x.
  - destruct v as [| |[]| | |l]; simpl; try done.
    destruct (rem !! l) as [[props|elems]|]; try done.
    + destruct (has_own props "toString"); [|done]. intros [= <-]. eauto.
    + intros [= <-]. eauto.
  - destruct v as [| |[]| | |l]; simpl; try done.
    destruct (rem !! l) as [[props|elems]|]; try done.
    + destruct (has_own props "toString"); [|done]. intros [= <-]. eauto.
    + destruct (join_elems _ elems) as [y|strs] eqn:Hj; [|done].
      intros [= <-]. eapply join_elems_exn; [|exact Hj]. eauto.
Qed.

Lemma ToString_exn h v x : ToString h v = inl x → x = TypeError ∨ x = RangeError.
Proof. apply ToString_go_exn. Qed.

(** Only a reference can fail to print. *)
Lemma printable_primitive h v : (∀ l, v ≠ VRef l) → printable h v = true.
Proof.
  intros Hv. unfold printable, ToString.
  destruct v as [| |[]| | |l]; try (by destruct join_depth).
  by destruct (Hv l).
Qed.

(** The exceptions of serialisation are the TypeError of a cycle and the
    RangeError of an exhausted stack. *)
Lemma snapshot_elems_exn rec elems x :
  (∀ v y, rec v = inl y → y = TypeError ∨ y = RangeError) →
  snapshot_elems rec elems = inl x → x = TypeError ∨ x = RangeError.
Proof.
  intros Hrec. induction elems as [|e rest IH]; simpl; [done|].
  destruct (rec e) as [y|oj] eqn:He.
  - intros [= <-]. eauto.
  - destruct (snapshot_elems rec rest) as [y|js]; [|done].
    intros [= <-]. by apply IH.
Qed.

Lemma snapshot_props_exn rec props x :
  (∀ v y, rec v = inl y → y = TypeError ∨ y = RangeError) →
  snapshot_props rec props = inl x → x = TypeError ∨ x = RangeError.
Proof.
  intros Hrec. induction props as [|[k v] rest IH]; simpl; [done|].
  destruct (rec v) as [y|oj] eqn:He.
  - intros [= <-]. eauto.
  - destruct (snapshot_props rec rest) as [y|ms]; [|done].
    intros [= <-]. by apply IH.
Qed.

Lemma snapshot_go_exn depth : ∀ (rem : heap) v x,
  snapshot_go depth rem v = inl x → x = TypeError ∨ x = RangeError.
Proof.
  induction depth as [|d IH]; intros rem v x.
  - destruct v as [| | | | |l]; simpl; try done.
    intros [= <-]; eauto.
  - destruct v as [| | | | |l]; simpl; try done.
    destruct (rem !! l) as [[props|elems]|]; [| |intros [= <-]; eauto].
    + destruct (snapshot_props _ props) as [y|ms] eqn:Hp; [|done].
      intros [= <-]. eapply snapshot_props_exn; [|exact Hp]. eauto.
    + destruct (snapshot_elems _ elems) as [y|js] eqn:Hp; [|done].
      intros [= <-]. eapply snapshot_elems_exn; [|exact Hp]. eauto.
Qed.

Lemma JSON_stringify_exn (h : heap) gap v x :
  JSON_stringify h gap v = inl x → x = TypeError ∨ x = RangeError.
Proof.
  unfold JSON_stringify, snapshot.
  destruct (snapshot_go stack_depth h v) as [y|[j|]] eqn:Hs; try done.
  intros [= <-]. eapply snapshot_go_exn, Hs.
Qed.

(** Serialising anything but [undefined] yields a string, when it yields. *)
Lemma snapshot_go_undefined depth (rem : heap) v :
  snapshot_go depth rem v = inr None → v = VUndef.
Proof.
  destruct depth; destruct v as [| | | | |l]; simpl; try done.
  destruct (rem !! l) as [[props|elems]|]; try done.
  - by destruct (snapshot_props _ props).
  - by destruct (snapshot_elems _ elems).
Qed.

Lemma JSON_stringify_value (h : heap) gap v r :
  v ≠ VUndef → JSON_stringify h gap v = inr r → ∃ j, r = VStr j.
Proof.
  unfold JSON_stringify, snapshot.
  destruct (snapshot_go stack_depth h v) as [y|[j|]] eqn:Hs; try done.
  - intros _ [= <-]. eauto.
  - intros Hv _. by apply snapshot_go_undefined in Hs.
Qed.

(** Whether serialisation raises does not depend on the indentation. *)
Lemma JSON_stringify_serializable (h : heap) gap v :
  serializable h v = true ↔ ∃ r, JSON_stringify h gap v = inr r.
Proof.
  unfold serializable, JSON_stringify.
  destruct (snapshot h v) as [y|[j|]]; split; intros H; eauto; try done.
  by destruct H.
Qed.

(** Anything but a reference is serialised without an exception, and so is
    a record that holds no reference. *)
Lemma serializable_primitive h v :
  (∀ l, v ≠ VRef l) → serializable h v = true.
Proof.
  intros Hv. unfold serializable, snapshot.
  destruct v as [| | | | |l]; try (by destruct stack_depth).
  by destruct (Hv l).
Qed.

Lemma snapshot_props_flat rec props :
  (∀ v, (∀ l, v ≠ VRef l) → ∃ oj, rec v = inr oj) →
  Forall (λ p, ∀ l, p.2 ≠ VRef l) props →
  ∃ ms, snapshot_props rec props = inr ms.
Proof.
  intros Hrec. induction 1 as [|[k v] rest Hv _ IH]; simpl; [eauto|].
  destruct (Hrec v Hv) as [oj ->]. destruct IH as [ms ->]. eauto.
Qed.

Lemma snapshot_go_object depth (rem : heap) l props :
  rem !! l = Some (OObject props) →
  snapshot_go (S depth) rem (VRef l)
  = match snapshot_props (snapshot_go depth (delete l rem)) props with
    | inl x => inl x
    | inr ms => inr (Some (JObj ms))
    end.
Proof. intros Hl. simpl. by rewrite Hl. Qed.

Lemma serializable_flat_record (h : heap) l props :
  h !! l = Some (OObject props) →
  Forall (λ p, ∀ l', p.2 ≠ VRef l') props →
  serializable h (VRef l) = true.
Proof.
  intros Hl Hflat. unfold serializable, snapshot, stack_depth.
  change (min_stack_depth + stringify_headroom limits)%nat
    with (S (15 + stringify_headroom limits))%nat.
  set (d := (15 + stringify_headroom limits)%nat).
  rewrite (snapshot_go_object _ _ _ _ Hl).
  destruct (snapshot_props_flat (snapshot_go d (delete l h)) props)
    as [ms Hms]; [|done|].
  - intros v Hv. destruct v as [| | | | |l']; try (by destruct d; eauto).
    by destruct (Hv l').
  - by rewrite Hms.
Qed.

(** [JSON.stringify] raises exactly on the values from which a blocking
    nesting starts. *)
Lemma snapshot_elems_raises rec elems :
  (∃ x, snapshot_elems rec elems = inl x) ↔ ∃ v, v ∈ elems ∧ ∃ x, rec v = inl x.
Proof.
  induction elems as [|e rest IH]; simpl.
  - split; [by intros [x ?]|]. by intros (v & Hv%elem_of_nil & _).
  - destruct (rec e) as [y|oj] eqn:He.
    + split; [|by eauto]. intros _. exists e. split; [by left|eauto].
    + destruct (snapshot_elems rec rest) as [y|js].
      * split; [|by eauto]. intros _.
        destruct IH as [(v & Hv & Hx) _]; [by eauto|].
        exists v. split; [by right|done].
      * split; [by intros [x ?]|].
        intros (v & [->|Hv]%elem_of_cons & x & Hx); [congruence|].
        destruct IH as [_ [z Hz]]; [by eauto|done].
Qed.

Lemma snapshot_props_raises rec props :
  (∃ x, snapshot_props rec props = inl x) ↔ ∃ v, v ∈ props.*2 ∧ ∃ x, rec v = inl x.
Proof.
  induction props as [|[k e] rest IH]; simpl.
  - split; [by intros [x ?]|]. by intros (v & Hv%elem_of_nil & _).
  - destruct (rec e) as [y|oj] eqn:He.
    + split; [|by eauto]. intros _. exists e. split; [by left|eauto].
    + destruct (snapshot_props rec rest) as [y|ms].
      * split; [|by eauto]. intros _.
        destruct IH as [(v & Hv & Hx) _]; [by eauto|].
        exists v. split; [by right|done].
      * split; [by intros [x ?]|].
        intros (v & [->|Hv]%elem_of_cons & x & Hx); [congruence|].
        destruct IH as [_ [z Hz]]; [by eauto|done].
Qed.

Lemma nesting_last_is (h : heap) v ls : nesting h v ls → ∃ l, last ls = Some l.
Proof.
  induction 1 as [l|l o v ls _ _ _ [l' IH]]; [by exists l|].
  exists l'. destruct ls; [done|]. by rewrite last_cons, IH.
Qed.

Lemma nesting_delete_weaken (h : heap) l v ls :
  nesting (delete l h) v ls → nesting h v ls.
Proof.
  induction 1 as [l0|l0 o v ls Hl0 Hv _ IH]; [constructor|].
  apply lookup_delete_Some in Hl0 as [_ Hl0]. by econstructor.
Qed.

(** A nesting is cut at the first visit of [l], or avoids [l]. *)
Lemma nesting_delete (h : heap) l v ls :
  nesting h v ls →
  ∃ ls', nesting (delete l h) v ls'
         ∧ (((l ∉ ls) ∧ ls' = ls) ∨ last ls' = Some l).
Proof.
  induction 1 as [l0|l0 o v ls Hl0 Hv _ (ls' & Hn & IH)].
  - exists [l0]. split; [constructor|].
    destruct (decide (l0 = l)) as [->|Hne]; [by right|].
    left. split; [|done]. by intros ->%list_elem_of_singleton.
  - destruct (decide (l0 = l)) as [->|Hne].
    + exists [l]. split; [constructor|by right].
    + exists (l0 :: ls'). split.
      * econstructor; [|exact Hv|exact Hn]. by rewrite lookup_delete_ne.
      * destruct IH as [[Hnot ->]|Hlast].
        -- left. split; [|done].
           intros [?|?]%elem_of_cons; [congruence|done].
        -- right. destruct ls'; [done|]. by rewrite last_cons, Hlast.
Qed.

Lemma snapshot_go_raises depth : ∀ (rem : heap) v,
  (∃ x, snapshot_go depth rem v = inl x)
  ↔ ∃ ls, nesting rem v ls ∧ blocking depth rem ls.
Proof.
  induction depth as [|d IH]; intros rem v.
  - destruct v as [| | | | |l]; simpl;
      try (split; [by intros [x ?]|by intros (ls & Hn & _); inversion Hn]).
    split; [|by eauto]. intros _. exists [l].
    split; [constructor|]. left. simpl. lia.
  - destruct v as [| | | | |l];
      try (simpl; split; [by intros [x ?]|by intros (ls & Hn & _); inversion Hn]).
    assert (Hkids : ∀ o, rem !! l = Some o →
              (∃ v, v ∈ children o ∧ ∃ x, snapshot_go d (delete l rem) v = inl x)
              ↔ ∃ ls, nesting rem (VRef l) ls ∧ blocking (S d) rem ls).
    { intros o Hl. split.
      - intros (v & Hv & Hx). apply IH in Hx as (ls & Hn & Hb).
        exists (l :: ls). split.
        + econstructor; [exact Hl|exact Hv|by eapply nesting_delete_weaken].
        + destruct Hb as [Hlen|[Hdup|(l' & Hlast & Hnone)]].
          * left. simpl. lia.
          * right. left. intros Hnd. apply Hdup. by inversion Hnd.
          * destruct (decide (l' = l)) as [->|Hne].
            -- right. left. intros Hnd. inversion Hnd as [|? ? Hnot _]; subst.
               apply Hnot. by apply last_Some_elem_of.
            -- right. right. exists l'. split.
               ++ destruct ls; [done|]. by rewrite last_cons, Hlast.
               ++ by rewrite lookup_delete_ne in Hnone.
      - intros (ls & Hn & Hb). inversion Hn as [|? o' v ls' Hl' Hv Hn']; subst.
        + destruct Hb as [Hlen|[Hdup|(l' & Hlast & Hnone)]].
          * simpl in Hlen. lia.
          * destruct Hdup. apply NoDup_singleton.
          * simpl in Hlast. congruence.
        + assert (o' = o) as -> by congruence.
          exists v. split; [done|]. apply IH.
          destruct (nesting_delete rem l v ls' Hn') as (ls'' & Hn'' & Hcut).
          exists ls''. split; [done|].
          destruct Hcut as [[Hnot ->]|Hlast].
          * destruct Hb as [Hlen|[Hdup|(l' & Hlast & Hnone)]].
            -- left. simpl in Hlen. lia.
            -- right. left. intros Hnd. apply Hdup. by constructor.
            -- right. right. exists l'. split.
               ++ destruct ls'; [by inversion Hn'|]. by rewrite last_cons_cons in Hlast.
               ++ rewrite lookup_delete_None. by right.
          * right. right. exists l. split; [done|]. by rewrite lookup_delete_eq. }
    simpl. destruct (rem !! l) as [[props|elems]|] eqn:Hl.
    + rewrite <- (Hkids _ eq_refl). simpl.
      rewrite <- snapshot_props_raises.
      destruct (snapshot_props _ props); split; intros [x ?]; by eauto.
    + rewrite <- (Hkids _ eq_refl). simpl.
      rewrite <- snapshot_elems_raises.
      destruct (snapshot_elems _ elems); split; intros [x ?]; by eauto.
    + split; [|by eauto]. intros _. exists [l]. split; [constructor|].
      right. right. by exists l.
Qed.

Lemma serializable_false (h : heap) v :
  serializable h v = false ↔ ∃ ls, nesting h v ls ∧ blocking stack_depth h ls.
Proof.
  rewrite <- snapshot_go_raises. unfold serializable, snapshot.
  destruct (snapshot_go stack_depth h v); split; try done; [by eauto|].
  by intros [x ?].
Qed.

(** ** Running the primitives *)

Lemma truthy_non_nullish v : truthy v = true → non_nullish v = true.
Proof. by destruct v. Qed.

Lemma Get_field h v k : non_nullish v = true → Get h v k = inr (field h v k).
Proof.
  intros Hv. unfold field.
  destruct v as [| | | | |l]; simpl in *; try done.
  by destruct (h !! l) as [[]|].
Qed.

Lemma get_prop_run v k s :
  non_nullish v = true → get_prop v k s = Return (field (st_heap s) v k) s.
Proof. intros Hv. unfold get_prop, lift. by rewrite Get_field. Qed.

Lemma get_prop_nullish v k s :
  non_nullish v = false → get_prop v k s = Throw TypeError s.
Proof. by destruct v. Qed.

Lemma field_nullish h v k : non_nullish v = false → field h v k = VUndef.
Proof. by destruct v. Qed.

Lemma default_param_non_nullish v d :
  v ≠ VUndef → default_param v d = mret v.
Proof. by destruct v. Qed.

(** Unfold the monad of a computation applied to a state. *)
Ltac run :=
  repeat (progress (unfold mbind, M_bind, mret, M_ret, and_then, to_string,
                      stringify, lift; simpl)).

(** ** reduceError *)

(** What reduceError does with an error that is neither [undefined] nor
    [null]: the substitutions of the template literal are evaluated in
    order, and the first to raise ends the call. *)
Lemma reduceError_run e h lg :
  non_nullish e = true →
  reduceError e (State h lg) =
    if complete_response h e then
      let response := field h e "response" in
      match ToString h (field h response "status") with
      | inl x => Throw x (State h lg)
      | inr s1 =>
          match ToString h (field h response "statusText") with
          | inl x => Throw x (State h lg)
          | inr s2 =>
              match JSON_stringify h EmptyString (field h response "body") with
              | inl x => Throw x (State h lg)
              | inr j =>
                  match ToString h j with
                  | inl x => Throw x (State h lg)
                  | inr s3 => Return (VStr (formatted s1 s2 s3)) (State h lg)
                  end
              end
          end
      end
    else Return e (State h lg).
Proof.
  intros He. unfold reduceError, complete_response, formatted.
  rewrite default_param_non_nullish by (by destruct e).
  run. rewrite get_prop_run by done. simpl.
  set (response := field h e "response").
  destruct (truthy response) eqn:Hr; simpl; [|done].
  apply truthy_non_nullish in Hr.
  destruct (truthy (field h response "status")) eqn:Hs;
    destruct (truthy (field h response "statusText")) eqn:Ht;
    destruct (truthy (field h response "body")) eqn:Hb; simpl;
    repeat (rewrite ?get_prop_run by done; simpl; rewrite ?Hs, ?Ht, ?Hb; simpl);
    try done.
  destruct (ToString h (field h response "status")); simpl; [done|].
  rewrite get_prop_run by done. simpl.
  destruct (ToString h (field h response "statusText")); simpl; [done|].
  rewrite get_prop_run by done. simpl.
  destruct (JSON_stringify h EmptyString (field h response "body")); simpl; [done|].
  by destruct (ToString h _).
Qed.

Lemma reduceError_undefined h lg :
  reduceError VUndef (State h lg)
  = Return (VRef (fresh (dom h))) (State (<[fresh (dom h) := OObject []]> h) lg).
Proof.
  unfold reduceError. run. unfold get_prop at 1. run.
  by rewrite lookup_insert_eq.
Qed.

Lemma reduceError_null h lg :
  reduceError VNull (State h lg) = Throw TypeError (State h lg).
Proof. reflexivity. Qed.

(** C1 (amended).  For every error whose response has status, statusText
    and body present and truthy, whose status and statusText can be
    converted to strings and whose body [JSON.stringify] can serialise
    (no object reachable from it contains itself or is nested deeper than
    the stack allows), reduceError returns exactly the string
    [<status> - <statusText> (<JSON of body>)], leaving heap and log as
    they were; when one of the three conversions raises (the TypeError of
    a circular body or of a hidden [toString], the RangeError of an
    exhausted stack), reduceError raises instead of returning. *)
Theorem reduceError_formats_complete_response h lg e :
  complete_response h e = true →
  let response := field h e "response" in
  let status := field h response "status" in
  let statusText := field h response "statusText" in
  let body := field h response "body" in
  (printable h status = true → printable h statusText = true →
   serializable h body = true →
   ∃ s1 s2 j,
     ToString h status = inr s1
     ∧ ToString h statusText = inr s2
     ∧ JSON_stringify h EmptyString body = inr (VStr j)
     ∧ reduceError e (State h lg)
       = Return (VStr (s1 +:+ " - " +:+ s2 +:+ " (" +:+ j +:+ ")")) (State h lg))
  ∧ (printable h status && printable h statusText && serializable h body = false →
     ∃ x, (x = TypeError ∨ x = RangeError)
          ∧ reduceError e (State h lg) = Throw x (State h lg)).
Proof.
  intros Hc response status statusText body.
  assert (He : non_nullish e = true).
  { destruct (non_nullish e) eqn:Hn; [done|].
    unfold complete_response in Hc. by rewrite (field_nullish _ _ _ Hn) in Hc. }
  assert (Hb : body ≠ VUndef).
  { unfold complete_response in Hc. fold response in Hc. fold body in Hc.
    intros Hu. rewrite Hu in Hc. by rewrite andb_false_r in Hc. }
  rewrite reduceError_run, Hc by done. cbv zeta.
  fold response. fold status. fold statusText. fold body.
  unfold printable, serializable.
  pose proof (JSON_stringify_value h EmptyString body) as Hval.
  pose proof (JSON_stringify_exn h EmptyString body) as Hexn.
  unfold JSON_stringify in *.
  destruct (ToString h status) as [x1|s1] eqn:H1.
  { split; [done|]. intros _. exists x1. split; [eapply ToString_exn, H1|done]. }
  destruct (ToString h statusText) as [x2|s2] eqn:H2.
  { split; [done|]. intros _. exists x2. split; [eapply ToString_exn, H2|done]. }
  destruct (snapshot h body) as [x3|[j|]] eqn:H3.
  - split; [done|]. intros _. exists x3. split; [by apply Hexn|done].
  - split; [|done]. intros _ _ _. exists s1, s2, (print_json EmptyString EmptyString j).
    by rewrite ToString_str.
  - by destruct (Hval VUndef Hb eq_refl).
Qed.

(** C2 (amended).  For every error value in which the response is absent,
    or any of response.status, response.statusText, response.body is
    missing or falsy: an error other than [undefined] and [null] is
    returned itself (the same reference, heap and log unchanged) and no
    string is built; [undefined] is replaced by a new empty object, which
    is returned; on [null] a TypeError is raised. *)
Theorem reduceError_passes_incomplete_through h lg e :
  complete_response h e = false →
  reduceError e (State h lg) =
    match e with
    | VUndef =>
        Return (VRef (fresh (dom h)))
               (State (<[fresh (dom h) := OObject []]> h) lg)
    | VNull => Throw TypeError (State h lg)
    | _ => Return e (State h lg)
    end.
Proof.
  intros Hc.
  destruct (non_nullish e) eqn:He.
  - rewrite reduceError_run, Hc by done. by destruct e.
  - destruct e; try done. apply reduceError_undefined.
Qed.

(** ** No helper consults the log *)

Lemma relog_nil {A} (o : outcome A) : relog [] o = o.
Proof. by destruct o as [a []|e []]. Qed.

Lemma relog_app {A} pre1 pre2 (o : outcome A) :
  relog pre1 (relog pre2 o) = relog (pre1 ++ pre2) o.
Proof. destruct o as [a []|e []]; simpl; by rewrite app_assoc. Qed.

Lemma log_independent_ret {A} (a : A) : log_independent (mret a).
Proof. intros h lg. run. by rewrite app_nil_r. Qed.

Lemma log_independent_bind {A B} (m : M A) (f : A → M B) :
  log_independent m → (∀ a, log_independent (f a)) → log_independent (m ≫= f).
Proof.
  intros Hm Hf h lg. run. rewrite (Hm h lg).
  destruct (m (State h [])) as [a [h' lg']|e [h' lg']]; simpl; [|done].
  by rewrite (Hf a h' (lg ++ lg')%list), (Hf a h' lg'), relog_app.
Qed.

Lemma log_independent_lift {A} (f : heap → exn + A) : log_independent (lift f).
Proof. intros h lg. unfold lift. simpl. destruct (f h); simpl; by rewrite app_nil_r. Qed.

Lemma log_independent_alloc o : log_independent (alloc o).
Proof. intros h lg. unfold alloc. simpl. by rewrite app_nil_r. Qed.

Lemma log_independent_logger_debug msg : log_independent (logger_debug msg).
Proof. by intros h lg. Qed.

Lemma log_independent_default_param v d :
  log_independent d → log_independent (default_param v d).
Proof. destruct v; simpl; auto using log_independent_ret. Qed.

Lemma log_independent_if {A} (b : bool) (m1 m2 : M A) :
  log_independent m1 → log_independent m2 → log_independent (if b then m1 else m2).
Proof. by destruct b. Qed.

Create HintDb logfree.
#[local] Hint Resolve log_independent_ret log_independent_lift
  log_independent_alloc log_independent_logger_debug : logfree.

(** Follow the structure of a computation down to its primitives. *)
Ltac logfree :=
  repeat first
    [ apply log_independent_bind; [|intros ?]
    | apply log_independent_if
    | apply log_independent_default_param
    | solve [eauto with logfree] ].

Lemma log_independent_reduceError e : log_independent (reduceError e).
Proof. unfold reduceError, and_then, get_prop, to_string, stringify. logfree. Qed.

Lemma log_independent_createRequestOptions params :
  log_independent (createRequestOptions params).
Proof. unfold createRequestOptions, get_prop. logfree. Qed.

Lemma log_independent_requestInterceptor req :
  log_independent (requestInterceptor req).
Proof. unfold requestInterceptor, to_string, stringify. logfree. Qed.

Lemma log_independent_try_catch_block parse res :
  log_independent (try_catch_block parse res).
Proof.
  intros h lg. unfold try_catch_block, try_block.
  assert (Hd : log_independent
                 (t ← get_prop res "text"; lift (λ h, toString_utf8 h t)))
    by (unfold get_prop; logfree).
  rewrite (Hd h lg).
  destruct ((t ← get_prop res "text"; lift (λ h, toString_utf8 h t)) (State h []))
    as [d [h' lg']|e [h' lg']]; simpl.
  - destruct (parse d) as [parsed|]; simpl; [|run; by rewrite app_assoc].
    destruct (JSON_stringify_parsed "  " parsed); simpl;
      [run|]; by rewrite app_assoc.
  - run. by rewrite app_assoc.
Qed.

Lemma log_independent_responseInterceptor parse res :
  log_independent (responseInterceptor parse res).
Proof.
  unfold responseInterceptor, get_prop, to_string, stringify.
  pose proof (log_independent_try_catch_block parse res). logfree.
Qed.

(** C9.  reduceError is idempotent: applied to its own result it returns
    that result and leaves heap and log as the first call left them (and
    it raises when the first call raises); a string, formatted or not, is
    passed through unchanged.  The helpers keep no state between calls:
    none of them consults the log, the only thing a call leaves behind
    besides the objects it returns. *)
Theorem reduceError_idempotent :
  (∀ e s, (reduceError e ≫= reduceError) s = reduceError e s)
  ∧ (∀ str s, reduceError (VStr str) s = Return (VStr str) s)
  ∧ (∀ e, log_independent (reduceError e))
  ∧ (∀ params, log_independent (createRequestOptions params))
  ∧ (∀ req, log_independent (requestInterceptor req))
  ∧ (∀ parse res, log_independent (responseInterceptor parse res)).
Proof.
  assert (Hstr : ∀ str s, reduceError (VStr str) s = Return (VStr str) s).
  { intros str [h lg]. by rewrite reduceError_run. }
  split; [|split; [exact Hstr|]].
  - intros e [h lg]. unfold mbind at 1, M_bind at 1.
    destruct (non_nullish e) eqn:He.
    + rewrite reduceError_run by done.
      destruct (complete_response h e) eqn:Hc.
      * cbv zeta.
        destruct (ToString h (field h (field h e "response") "status")); [done|].
        destruct (ToString h (field h (field h e "response") "statusText")); [done|].
        destruct (JSON_stringify h EmptyString _) as [x|j]; [done|].
        destruct (ToString h j); [done|]. apply Hstr.
      * by rewrite reduceError_run, Hc.
    + destruct e; try done.
      rewrite reduceError_undefined.
      rewrite reduceError_run by done.
      unfold complete_response, field at 1 2 3 4. simpl.
      by rewrite lookup_insert_eq.
  - auto using log_independent_reduceError, log_independent_createRequestOptions,
      log_independent_requestInterceptor, log_independent_responseInterceptor.
Qed.

(** ** createRequestOptions *)

Lemma assoc_set_eq props k v : assoc (assoc_set props k v) k = v.
Proof.
  induction props as [|[k' v'] rest IH]; simpl.
  - by rewrite String.eqb_refl.
  - destruct (String.eqb k' k) eqn:Hk; simpl; by rewrite Hk.
Qed.

Lemma fresh_lookup (h : heap) : h !! fresh (dom h) = None.
Proof. apply not_elem_of_dom, is_fresh. Qed.

Lemma alloc_extends (h : heap) o : h ⊆ <[fresh (dom h) := o]> h.
Proof. apply insert_subseteq, fresh_lookup. Qed.

Lemma has_shape_record h l props fields :
  h !! l = Some (OObject props) →
  Forall2 (λ p f, p.1 = f.1 ∧ has_shape h p.2 f.2) props fields →
  has_shape h (VRef l) (SObj fields).
Proof. apply has_shape_obj. Qed.

(** Build a shape from the lookups it needs. *)
Ltac shape :=
  repeat first
    [ apply has_shape_val
    | eapply has_shape_record; [eassumption|]
    | apply List.Forall2_cons; [split; [reflexivity|]|]
    | apply List.Forall2_nil ].

(** What createRequestOptions does with an argument that is neither
    [undefined] nor [null]: it returns a new record [r] in a heap [h'] that
    extends the old one, with the request body [body] either the one
    supplied or a new empty record. *)
Lemma createRequestOptions_run h lg params :
  non_nullish params = true →
  ∃ r h' body,
    createRequestOptions params (State h lg) = Return (VRef r) (State h' lg)
    ∧ h ⊆ h'
    ∧ h !! r = None
    ∧ match field h params "body" with
      | VUndef => ∃ lb, body = VRef lb ∧ h !! lb = None ∧ h' !! lb = Some (OObject [])
      | supplied => body = supplied
      end
    ∧ (∃ ls lv, h' !! r = Some (OObject [("requestBody", body); ("securities", VRef ls);
                                         ("serverVariables", VRef lv)]))
    ∧ has_shape h' (VRef r)
        (request_options_shape (SVal body) (field h params "tenantId")
           (field h params "apiKey") (field h params "accessToken")).
Proof.
  intros Hp. unfold createRequestOptions. run.
  rewrite !get_prop_run by done. simpl.
  set (t := field h params "tenantId"). set (k := field h params "apiKey").
  set (a := field h params "accessToken"). set (b := field h params "body").
  assert (Hbody : ∃ body h0,
             default_param b (alloc (OObject [])) (State h lg)
             = Return body (State h0 lg)
             ∧ h ⊆ h0
             ∧ match b with
               | VUndef => ∃ lb, body = VRef lb ∧ h !! lb = None
                                 ∧ h0 !! lb = Some (OObject [])
               | supplied => body = supplied
               end).
  { destruct b; simpl; try (by eexists _, _; split; [reflexivity|]).
    eexists _, _. split; [reflexivity|]. split; [apply alloc_extends|].
    eexists. split; [done|]. split; [apply fresh_lookup|apply lookup_insert_eq]. }
  destruct Hbody as (body & h0 & -> & Hsub0 & Hb). unfold alloc. simpl.
  set (l1 := fresh (dom h0)). set (h1 := <[l1 := _]> h0).
  set (l2 := fresh (dom h1)). set (h2 := <[l2 := _]> h1).
  set (l3 := fresh (dom h2)). set (h3 := <[l3 := _]> h2).
  set (l4 := fresh (dom h3)). set (h4 := <[l4 := _]> h3).
  set (l5 := fresh (dom h4)). set (h5 := <[l5 := _]> h4).
  set (l6 := fresh (dom h5)). set (h6 := <[l6 := _]> h5).
  assert (H1 : h0 ⊆ h1) by apply alloc_extends.
  assert (H2 : h1 ⊆ h2) by apply alloc_extends.
  assert (H3 : h2 ⊆ h3) by apply alloc_extends.
  assert (H4 : h3 ⊆ h4) by apply alloc_extends.
  assert (H5 : h4 ⊆ h5) by apply alloc_extends.
  assert (H6 : h5 ⊆ h6) by apply alloc_extends.
  assert (L6 : h6 !! l6 = Some (OObject [("requestBody", body); ("securities", VRef l4);
                                          ("serverVariables", VRef l5)]))
    by apply lookup_insert_eq.
  assert (L5 : h6 !! l5 = Some (OObject [("ORGANIZATION", t)])).
  { eapply lookup_weaken; [apply lookup_insert_eq|done]. }
  assert (L4 : h6 !! l4 = Some (OObject [("authorized", VRef l3)])).
  { eapply lookup_weaken; [apply lookup_insert_eq|]. by etrans. }
  assert (L3 : h6 !! l3 = Some (OObject [("BearerAuth", VRef l1); ("ApiKeyAuth", VRef l2)])).
  { eapply lookup_weaken; [apply lookup_insert_eq|]. do 2 (etrans; [eassumption|]). done. }
  assert (L2 : h6 !! l2 = Some (OObject [("value", k)])).
  { eapply lookup_weaken; [apply lookup_insert_eq|]. do 3 (etrans; [eassumption|]). done. }
  assert (L1 : h6 !! l1 = Some (OObject [("value", a)])).
  { eapply lookup_weaken; [apply lookup_insert_eq|]. do 4 (etrans; [eassumption|]). done. }
  assert (Hsub5 : h0 ⊆ h5) by (do 4 (etrans; [eassumption|]); done).
  assert (Hsub : h0 ⊆ h6) by (etrans; [exact Hsub5|exact H6]).
  exists l6, h6, body. split; [done|]. split; [etrans; [exact Hsub0|exact Hsub]|].
  split; [|split; [|split; [by eauto|]]].
  - assert (Hl6 : h5 !! l6 = None) by apply fresh_lookup.
    destruct (h !! l6) as [o|] eqn:Ho; [|done].
    assert (h5 !! l6 = Some o); [|congruence].
    eapply lookup_weaken; [exact Ho|]. etrans; [exact Hsub0|exact Hsub5].
  - destruct b; try done.
    destruct Hb as (lb & -> & Hnone & Hlb). exists lb.
    split; [done|]. split; [done|]. eapply lookup_weaken; [exact Hlb|done].
  - unfold request_options_shape. shape.
Qed.

Lemma Get_non_nullish h v k x : Get h v k = inr x → non_nullish v = true ∧ x = field h v k.
Proof.
  intros HG. unfold field. rewrite HG. split; [|done]. by destruct v.
Qed.

Lemma request_options_shape_body h v b1 b2 t k a :
  has_shape h v (request_options_shape b1 t k a) →
  (∀ w, has_shape h w b1 → has_shape h w b2) →
  has_shape h v (request_options_shape b2 t k a).
Proof.
  unfold request_options_shape. intros Hs Hb.
  inversion Hs as [|l props fields Hl Hf]; subst.
  inversion Hf as [|p f ps fs [Hk Hp] Hrest]; subst.
  eapply has_shape_obj; [exact Hl|].
  apply List.Forall2_cons; [split; [done|by apply Hb]|done].
Qed.

(** C3.  For every tenantId, apiKey and accessToken, createRequestOptions
    called with those three fields and body omitted returns exactly
    [{requestBody: {}, securities: {authorized: {BearerAuth: {value:
    accessToken}, ApiKeyAuth: {value: apiKey}}}, serverVariables:
    {ORGANIZATION: tenantId}}]; when a body is supplied the result has the
    same shape with requestBody equal to that body. *)
Theorem createRequestOptions_builds_request_options
    h lg params tenantId apiKey accessToken body :
  Get h params "tenantId" = inr tenantId →
  Get h params "apiKey" = inr apiKey →
  Get h params "accessToken" = inr accessToken →
  Get h params "body" = inr body →
  ∃ r h',
    createRequestOptions params (State h lg) = Return (VRef r) (State h' lg)
    ∧ has_shape h' (VRef r)
        (request_options_shape
           (match body with VUndef => SObj [] | supplied => SVal supplied end)
           tenantId apiKey accessToken).
Proof.
  intros [Hp ->]%Get_non_nullish [_ ->]%Get_non_nullish
         [_ ->]%Get_non_nullish [_ ->]%Get_non_nullish.
  destruct (createRequestOptions_run h lg params Hp)
    as (r & h' & bv & Hrun & _ & _ & Hb & _ & Hshape).
  exists r, h'. split; [done|].
  eapply request_options_shape_body; [exact Hshape|].
  intros w Hw. inversion Hw; subst.
  destruct (field h params "body"); subst; try apply has_shape_val.
  destruct Hb as (lb & -> & _ & Hlb).
  eapply has_shape_obj; [exact Hlb|apply List.Forall2_nil].
Qed.

(** C4 (amended).  For every argument other than [undefined] and [null],
    createRequestOptions succeeds; it writes nothing to the log, leaves
    every object of the heap as it was and returns a new record; and it
    stores tenantId, apiKey and accessToken as it reads them, whatever they
    are (absent, empty or of any type), without validating them. *)
Theorem createRequestOptions_total_and_pure h lg params :
  non_nullish params = true →
  ∃ r h' body,
    createRequestOptions params (State h lg) = Return (VRef r) (State h' lg)
    ∧ h ⊆ h'
    ∧ h !! r = None
    ∧ has_shape h' (VRef r)
        (request_options_shape (SVal body) (field h params "tenantId")
           (field h params "apiKey") (field h params "accessToken")).
Proof.
  intros Hp.
  destruct (createRequestOptions_run h lg params Hp)
    as (r & h' & bv & Hrun & Hsub & Hnew & _ & _ & Hshape).
  by exists r, h', bv.
Qed.

(** C10.  When a body is supplied, the requestBody of the returned options
    is that very value: for an object, the same reference, not a copy.
    The object is left as it was, and whatever it becomes afterwards is
    what the options lead to; in particular a property assigned to the
    caller's body is read back through [options.requestBody]. *)
Theorem createRequestOptions_shares_body h lg params b o :
  Get h params "body" = inr (VRef b) →
  h !! b = Some o →
  ∃ r h',
    createRequestOptions params (State h lg) = Return (VRef r) (State h' lg)
    ∧ Get h' (VRef r) "requestBody" = inr (VRef b)
    ∧ h' !! b = Some o
    ∧ (∀ o', Get (<[b := o']> h') (VRef r) "requestBody" = inr (VRef b)
             ∧ <[b := o']> h' !! b = Some o')
    ∧ (∀ props k v, o = OObject props →
         (body ← get_prop (VRef r) "requestBody"; get_prop body k)
           (State (store_prop h' b k v) lg)
         = Return v (State (store_prop h' b k v) lg)).
Proof.
  intros [Hp Hbody]%Get_non_nullish Hb.
  destruct (createRequestOptions_run h lg params Hp)
    as (r & h' & bv & Hrun & Hsub & Hnew & Hbv & (ls & lv & Hr) & _).
  rewrite <- Hbody in Hbv. subst bv.
  assert (Hne : b ≠ r) by congruence.
  assert (Hb' : h' !! b = Some o) by (eapply lookup_weaken; eauto).
  assert (Hread : ∀ o', Get (<[b := o']> h') (VRef r) "requestBody" = inr (VRef b)).
  { intros o'. simpl. by rewrite lookup_insert_ne, Hr. }
  exists r, h'. split; [done|]. split; [by simpl; rewrite Hr|]. split; [done|].
  split.
  - intros o'. split; [apply Hread|apply lookup_insert_eq].
  - intros props k v ->. unfold store_prop. rewrite Hb'.
    set (o' := OObject (assoc_set props k v)).
    assert (Hfield : field (<[b := o']> h') (VRef r) "requestBody" = VRef b)
      by (unfold field; by rewrite Hread).
    unfold mbind, M_bind. rewrite get_prop_run by done. simpl st_heap.
    rewrite Hfield, get_prop_run by done. simpl st_heap.
    unfold field. simpl. rewrite lookup_insert_eq. unfold o'.
    by rewrite assoc_set_eq.
Qed.

(** ** requestInterceptor *)

Lemma stringify_printed h v j :
  JSON_stringify h "  " v = inr j → ToString h j = inr (stringified h v).
Proof.
  intros Hj. unfold stringified. rewrite Hj.
  unfold JSON_stringify in Hj.
  destruct (snapshot h v) as [x|[t|]]; try done; injection Hj as <-.
  - apply ToString_str.
  - apply ToString_undefined.
Qed.

Lemma requestInterceptor_run req h lg :
  requestInterceptor req (State h lg) =
    match JSON_stringify h "  " req with
    | inr _ => Return req (State h (lg ++ [request_line h req]))
    | inl x => Throw x (State h lg)
    end.
Proof.
  unfold requestInterceptor, request_line. run.
  destruct (JSON_stringify h "  " req) as [x|j] eqn:Hj; [done|]. simpl.
  by rewrite (stringify_printed _ _ _ Hj).
Qed.

(** C7 (amended).  For every request [req] that [JSON.stringify] can
    serialise (no object reachable from it contains itself or is nested
    deeper than the stack allows),
    requestInterceptor returns the very value it was given and does not
    raise; the heap after the call is the heap before it, so no field of
    any object has changed, and the log has one more line. *)
Theorem requestInterceptor_returns_request req h lg :
  serializable h req = true →
  requestInterceptor req (State h lg)
  = Return req (State h (lg ++ [request_line h req])).
Proof.
  intros [r Hr]%(JSON_stringify_serializable _ "  ").
  by rewrite requestInterceptor_run, Hr.
Qed.

(** ** responseInterceptor *)

Section InterceptorFacts.

Variable JSON_parse : string → option json.

Lemma try_block_run res h lg :
  non_nullish res = true →
  try_block JSON_parse res (State h lg) =
    match toString_utf8 h (field h res "text") with
    | inl x => (VUndef, Throw x (State h lg))
    | inr text =>
        match JSON_parse text with
        | None => (VStr text, Throw SyntaxError (State h lg))
        | Some parsed =>
            if (json_depth parsed <=? stack_depth)%nat
            then (VStr text, Return () (State h (lg ++ [data_line parsed])))
            else (VStr text, Throw RangeError (State h lg))
        end
    end.
Proof.
  intros Hres. unfold try_block. run. rewrite get_prop_run by done. simpl.
  destruct (toString_utf8 h (field h res "text")) as [x|text]; [done|].
  destruct (JSON_parse text) as [parsed|]; [|done].
  unfold JSON_stringify_parsed. by destruct (json_depth parsed <=? stack_depth)%nat.
Qed.

Lemma try_catch_block_run res h lg :
  non_nullish res = true →
  try_catch_block JSON_parse res (State h lg)
  = Return () (State h (lg ++ [ok_block_line JSON_parse h res])).
Proof.
  intros Hres. unfold try_catch_block, ok_block_line.
  rewrite try_block_run by done.
  destruct (toString_utf8 h (field h res "text")) as [x|text]; run.
  - by rewrite ?ToString_undefined.
  - destruct (JSON_parse text) as [parsed|]; run; [|by rewrite ?ToString_str].
    destruct (json_depth parsed <=? stack_depth)%nat; run; [done|].
    by rewrite ?ToString_str.
Qed.

(** What responseInterceptor does with a response that is neither
    [undefined] nor [null]. *)
Lemma responseInterceptor_run res h lg :
  non_nullish res = true →
  responseInterceptor JSON_parse res (State h lg) =
    match JSON_stringify h "  " res with
    | inl x => Throw x (State h lg)
    | inr _ =>
        Return res
          (State h (lg ++ response_line h res
                      :: if truthy (field h res "ok")
                         then [ok_block_line JSON_parse h res] else []))
    end.
Proof.
  intros Hres. unfold responseInterceptor, response_line. run.
  destruct (JSON_stringify h "  " res) as [x|j] eqn:Hj; [done|]. simpl.
  rewrite (stringify_printed _ _ _ Hj). simpl.
  rewrite get_prop_run by done. simpl.
  destruct (truthy (field h res "ok")); simpl; [|done].
  rewrite try_catch_block_run by done. simpl.
  by rewrite <- app_assoc.
Qed.

End InterceptorFacts.

(** C5 (amended).  For every response other than [undefined] and [null]
    that [JSON.stringify] can serialise, responseInterceptor does not
    raise, whatever [ok] and the body text are and whatever [JSON.parse]
    does with the text: the [try]/[catch] block ends normally, any
    failure of the decode-and-parse step being caught.  (On [undefined]
    and [null] reading [res.ok] raises a TypeError, and on a circular
    response [JSON.stringify] does.) *)
Theorem responseInterceptor_never_raises parse res h lg :
  non_nullish res = true →
  serializable h res = true →
  (∃ lg', responseInterceptor parse res (State h lg) = Return res (State h lg'))
  ∧ (∃ lg', try_catch_block parse res (State h lg) = Return () (State h lg')).
Proof.
  intros Hres [r Hr]%(JSON_stringify_serializable _ "  ").
  rewrite responseInterceptor_run, Hr, try_catch_block_run by done. eauto.
Qed.

(** C6 (amended).  For every response other than [undefined] and [null]
    that [JSON.stringify] can serialise, responseInterceptor returns the
    very reference it was given and leaves the heap as it was: when
    [res.ok] is truthy and the text parses (the parsed text is logged, or
    the raw text when what was parsed is nested deeper than the stack and
    printing it raises), when [res.ok] is truthy and the text does not
    parse (the raw text is logged), and when [res.ok] is falsy, where the
    text is neither decoded nor parsed: only the response line is logged,
    whatever [JSON.parse] would do. *)
Theorem responseInterceptor_returns_response parse res h lg :
  non_nullish res = true →
  serializable h res = true →
  let ok := field h res "ok" in
  let decoded := toString_utf8 h (field h res "text") in
  (∃ lg', responseInterceptor parse res (State h lg) = Return res (State h lg'))
  ∧ (∀ text parsed,
       truthy ok = true → decoded = inr text → parse text = Some parsed →
       responseInterceptor parse res (State h lg)
       = Return res
           (State h (lg ++ [response_line h res;
                            if (json_depth parsed <=? stack_depth)%nat
                            then data_line parsed else raw_data_line text])))
  ∧ (∀ text,
       truthy ok = true → decoded = inr text → parse text = None →
       responseInterceptor parse res (State h lg)
       = Return res (State h (lg ++ [response_line h res; raw_data_line text])))
  ∧ (truthy ok = false →
     ∀ parse', responseInterceptor parse' res (State h lg)
               = Return res (State h (lg ++ [response_line h res]))).
Proof.
  intros Hres [r Hr]%(JSON_stringify_serializable _ "  ") ok decoded.
  split; [|split; [|split]].
  - rewrite responseInterceptor_run, Hr by done. eauto.
  - intros text parsed Hok Hd Hp.
    rewrite responseInterceptor_run, Hr by done. fold ok. rewrite Hok.
    unfold ok_block_line. fold decoded. by rewrite Hd, Hp.
  - intros text Hok Hd Hp.
    rewrite responseInterceptor_run, Hr by done. fold ok. rewrite Hok.
    unfold ok_block_line. fold decoded. by rewrite Hd, Hp.
  - intros Hok parse'.
    rewrite responseInterceptor_run, Hr by done. fold ok. by rewrite Hok.
Qed.

(** When the text cannot be decoded ([res.text] is [undefined], [null] or
    a number), the [try] block is left before [text] is assigned and before
    any parse: the fallback line prints [undefined]. *)
Lemma responseInterceptor_decode_failure parse res h lg x :
  non_nullish res = true →
  toString_utf8 h (field h res "text") = inl x →
  try_block parse res (State h lg) = (VUndef, Throw x (State h lg))
  ∧ try_catch_block parse res (State h lg)
    = Return () (State h (lg ++ [raw_data_line "undefined"])).
Proof.
  intros Hres Hd.
  rewrite try_block_run, try_catch_block_run by done.
  unfold ok_block_line. by rewrite Hd.
Qed.

(** C8 (amended).  In responseInterceptor, whenever [res.ok] is truthy,
    [res.text] can be decoded and the parse of the decoded text fails,
    [text] holds the decoded text when the [try] block is left (it was
    assigned before the parse was attempted) and the fallback line is
    [DATA] followed by that text; so it is when the text parses and
    printing what was parsed raises, because it is nested deeper than the
    stack.  When the decoding itself raises ([res.text] is [undefined],
    [null] or a number, or its conversion to a string raises), no parse
    is attempted, [text] is still unassigned and the fallback line is
    [DATA] followed by [undefined]. *)
Theorem responseInterceptor_fallback_logs_decoded_text parse res h lg :
  truthy (field h res "ok") = true →
  let decoded := toString_utf8 h (field h res "text") in
  (∀ text,
     decoded = inr text → parse text = None →
     try_block parse res (State h lg) = (VStr text, Throw SyntaxError (State h lg))
     ∧ try_catch_block parse res (State h lg)
       = Return () (State h (lg ++ [raw_data_line text]))
     ∧ (serializable h res = true →
        responseInterceptor parse res (State h lg)
        = Return res (State h (lg ++ [response_line h res; raw_data_line text]))))
  ∧ (∀ text parsed,
       decoded = inr text → parse text = Some parsed →
       (stack_depth < json_depth parsed)%nat →
       try_block parse res (State h lg) = (VStr text, Throw RangeError (State h lg))
       ∧ try_catch_block parse res (State h lg)
         = Return () (State h (lg ++ [raw_data_line text])))
  ∧ (∀ x,
       decoded = inl x →
       try_block parse res (State h lg) = (VUndef, Throw x (State h lg))
       ∧ try_catch_block parse res (State h lg)
         = Return () (State h (lg ++ [raw_data_line "undefined"]))
       ∧ (serializable h res = true →
          responseInterceptor parse res (State h lg)
          = Return res (State h (lg ++ [response_line h res;
                                        raw_data_line "undefined"])))).
Proof.
  intros Hok decoded.
  assert (Hres : non_nullish res = true).
  { destruct (non_nullish res) eqn:Hn; [done|].
    by rewrite (field_nullish _ _ _ Hn) in Hok. }
  split; [|split].
  - intros text Hd Hp. unfold decoded in Hd.
    rewrite try_block_run, try_catch_block_run by done.
    unfold ok_block_line. rewrite Hd, Hp. split; [done|]. split; [done|].
    intros [r Hr]%(JSON_stringify_serializable _ "  ").
    rewrite responseInterceptor_run, Hr, Hok by done.
    unfold ok_block_line. by rewrite Hd, Hp.
  - intros text parsed Hd Hp Hdeep. unfold decoded in Hd.
    rewrite try_block_run, try_catch_block_run by done.
    unfold ok_block_line. rewrite Hd, Hp.
    by destruct (Nat.leb_spec (json_depth parsed) stack_depth); [lia|].
  - intros x Hd. unfold decoded in Hd.
    rewrite try_block_run, try_catch_block_run by done.
    unfold ok_block_line. rewrite Hd. split; [done|]. split; [done|].
    intros [r Hr]%(JSON_stringify_serializable _ "  ").
    rewrite responseInterceptor_run, Hr, Hok by done.
    unfold ok_block_line. by rewrite Hd.
Qed.

(** * Further properties of the helpers *)

(** ** reduceError: effects, failures and results *)

(** X1.  reduceError never writes to the log and never changes or removes
    an object: whether it returns or raises, the log is the one it was
    given and the heap it leaves contains the heap it found.  The heap is
    the same unless the argument is [undefined], where the only addition
    is the new empty object that is returned. *)
Theorem reduceError_leaves_state e h lg :
  ∃ h', final_state (reduceError e (State h lg)) = State h' lg
        ∧ h ⊆ h'
        ∧ (e ≠ VUndef → h' = h)
        ∧ (e = VUndef → h' = <[fresh (dom h) := OObject []]> h).
Proof.
  destruct (non_nullish e) eqn:He.
  - exists h. rewrite reduceError_run by done.
    split; [|split; [done|split; [done|by intros ->]]].
    destruct (complete_response h e); [|done]. cbv zeta.
    destruct (ToString h (field h (field h e "response") "status")); [done|].
    destruct (ToString h (field h (field h e "response") "statusText")); [done|].
    destruct (JSON_stringify h EmptyString _) as [x|j]; [done|].
    by destruct (ToString h j).
  - destruct e; try done.
    + rewrite reduceError_undefined. eexists. split; [done|].
      split; [apply alloc_extends|]. by split.
    + exists h. rewrite reduceError_null. split; [done|]. split; [done|].
      by split.
Qed.

(** The three conversions of the template literal all succeed. *)
Lemma reduceError_conversions e h lg :
  non_nullish e = true →
  complete_response h e = true →
  let response := field h e "response" in
  let convertible :=
    printable h (field h response "status")
    && printable h (field h response "statusText")
    && serializable h (field h response "body") in
  (convertible = true →
   ∃ s1 s2 j,
     ToString h (field h response "status") = inr s1
     ∧ ToString h (field h response "statusText") = inr s2
     ∧ JSON_stringify h EmptyString (field h response "body") = inr (VStr j)
     ∧ reduceError e (State h lg) = Return (VStr (formatted s1 s2 j)) (State h lg))
  ∧ (convertible = false →
     ∃ x, (x = TypeError ∨ x = RangeError)
          ∧ reduceError e (State h lg) = Throw x (State h lg)).
Proof.
  intros He Hc response convertible. unfold convertible.
  set (body := field h response "body").
  assert (Hb : body ≠ VUndef).
  { unfold complete_response in Hc. fold response in Hc. fold body in Hc.
    intros Hu. rewrite Hu in Hc. by rewrite andb_false_r in Hc. }
  rewrite reduceError_run, Hc by done. cbv zeta. fold response. fold body.
  unfold printable, serializable.
  pose proof (JSON_stringify_value h EmptyString body) as Hval.
  pose proof (JSON_stringify_exn h EmptyString body) as Hexn.
  unfold JSON_stringify in *.
  destruct (ToString h (field h response "status")) as [x1|s1] eqn:H1.
  { split; [done|]. intros _. exists x1. split; [eapply ToString_exn, H1|done]. }
  destruct (ToString h (field h response "statusText")) as [x2|s2] eqn:H2.
  { split; [done|]. intros _. exists x2. split; [eapply ToString_exn, H2|done]. }
  destruct (snapshot h body) as [x3|[j|]] eqn:H3.
  - split; [done|]. intros _. exists x3. split; [by apply Hexn|done].
  - split; [|done]. intros _. exists s1, s2, (print_json EmptyString EmptyString j).
    by rewrite ToString_str.
  - by destruct (Hval VUndef Hb eq_refl).
Qed.

(** X2.  reduceError raises in exactly two cases: on [null], and on an
    error with a complete response one of whose three conversions raises:
    the conversion of status or statusText to a string, or
    [JSON.stringify] of the body.  The exception is a TypeError (reading
    from [null], a circular body, a hidden [toString]) or a RangeError (a
    nesting deeper than the stack), and heap and log are left as they
    were. *)
Theorem reduceError_raises_exactly e h lg :
  (raises (reduceError e (State h lg)) = true
   ↔ e = VNull
     ∨ (complete_response h e = true
        ∧ printable h (field h (field h e "response") "status")
          && printable h (field h (field h e "response") "statusText")
          && serializable h (field h (field h e "response") "body") = false))
  ∧ (∀ x s', reduceError e (State h lg) = Throw x s' →
             (x = TypeError ∨ x = RangeError) ∧ s' = State h lg)
  ∧ (e = VNull → reduceError e (State h lg) = Throw TypeError (State h lg)).
Proof.
  destruct (non_nullish e) eqn:He.
  - destruct (complete_response h e) eqn:Hc.
    + destruct (reduceError_conversions e h lg He Hc) as [Hyes Hno].
      cbv zeta in Hyes, Hno.
      destruct (printable h (field h (field h e "response") "status")
                && printable h (field h (field h e "response") "statusText")
                && serializable h (field h (field h e "response") "body")).
      * destruct Hyes as (s1 & s2 & j & _ & _ & _ & ->); [done|].
        split; [|split; [done|by intros ->]]. split; [done|].
        intros [->|[_ ?]]; done.
      * destruct Hno as (x & Hx & ->); [done|].
        split; [split; eauto|]. split; [|by intros ->].
        by intros y s' [= <- <-].
    + rewrite reduceError_run, Hc by done.
      split; [|split; [done|by intros ->]]. split; [done|].
      intros [->|[? _]]; done.
  - destruct e; try done.
    + rewrite reduceError_undefined. split; [|split; done]. split; [done|].
      intros [?|[Hc _]]; done.
    + rewrite reduceError_null. split; [split; eauto|].
      split; [|done]. intros x s' [= <- <-]. eauto.
Qed.

(** X3.  What reduceError returns for an argument other than [undefined]
    is either that argument itself, when the response is incomplete, or,
    when it is complete, the string formatted from the printed status,
    the printed statusText and the JSON of the body: nothing else is ever
    returned, and the state is the one it started from. *)
Theorem reduceError_returns_argument_or_string e h lg r s' :
  e ≠ VUndef →
  reduceError e (State h lg) = Return r s' →
  s' = State h lg
  ∧ ((complete_response h e = false ∧ r = e)
     ∨ (complete_response h e = true
        ∧ ∃ s1 s2 j,
            ToString h (field h (field h e "response") "status") = inr s1
            ∧ ToString h (field h (field h e "response") "statusText") = inr s2
            ∧ JSON_stringify h EmptyString (field h (field h e "response") "body")
              = inr (VStr j)
            ∧ r = VStr (s1 +:+ " - " +:+ s2 +:+ " (" +:+ j +:+ ")"))).
Proof.
  intros Hu. destruct (non_nullish e) eqn:He; [|by destruct e].
  destruct (complete_response h e) eqn:Hc.
  - destruct (reduceError_conversions e h lg He Hc) as [Hyes Hno].
    cbv zeta in Hyes, Hno.
    destruct (printable h (field h (field h e "response") "status")
              && printable h (field h (field h e "response") "statusText")
              && serializable h (field h (field h e "response") "body")).
    + destruct Hyes as (s1 & s2 & j & H1 & H2 & Hj & ->); [done|].
      intros [= <- <-]. split; [done|]. right. split; [done|].
      by exists s1, s2, j.
    + by destruct Hno as (x & _ & ->).
  - rewrite reduceError_run, Hc by done.
    intros [= <- <-]. split; [done|]. by left.
Qed.

(** X4.  The string reduceError builds depends on the error only through
    response.status, response.statusText and response.body: an error whose
    response has the same three values as a complete one yields the same
    outcome, whatever else the two errors and their responses hold. *)
Theorem reduceError_reads_three_fields e1 e2 h lg :
  complete_response h e1 = true →
  field h (field h e2 "response") "status"
    = field h (field h e1 "response") "status" →
  field h (field h e2 "response") "statusText"
    = field h (field h e1 "response") "statusText" →
  field h (field h e2 "response") "body"
    = field h (field h e1 "response") "body" →
  reduceError e2 (State h lg) = reduceError e1 (State h lg).
Proof.
  intros Hc Hs Ht Hb.
  assert (H1 : non_nullish e1 = true).
  { destruct (non_nullish e1) eqn:Hn; [done|].
    unfold complete_response in Hc. by rewrite (field_nullish _ _ _ Hn) in Hc. }
  assert (Hst : truthy (field h (field h e1 "response") "status") = true).
  { unfold complete_response in Hc.
    by destruct (truthy (field h e1 "response")),
         (truthy (field h (field h e1 "response") "status")). }
  assert (Hr2 : truthy (field h e2 "response") = true).
  { rewrite <- Hs in Hst.
    destruct (field h e2 "response") as [| | | | |l] eqn:Hr; try done. }
  assert (H2 : non_nullish e2 = true).
  { destruct (non_nullish e2) eqn:Hn; [done|].
    by rewrite (field_nullish _ _ _ Hn) in Hr2. }
  assert (Hc2 : complete_response h e2 = true).
  { unfold complete_response in *. rewrite Hr2, Hs, Ht, Hb.
    by destruct (truthy (field h e1 "response")). }
  rewrite !reduceError_run, Hc, Hc2 by done.
  unfold formatted. by rewrite Hs, Ht, Hb.
Qed.

(** ** createRequestOptions: allocation, isolation, serialisation *)

(** Where createRequestOptions puts what it builds: six new records at
    six different locations, none of them in use before, over the heap
    that holds the body (the old heap, or the old heap with the new empty
    body). *)
Lemma createRequestOptions_layout h lg params :
  non_nullish params = true →
  ∃ body h0 lba lak lau lse lsv r,
    createRequestOptions params (State h lg)
    = Return (VRef r)
        (State (request_options_heap h0 body (field h params "tenantId")
                  (field h params "apiKey") (field h params "accessToken")
                  lba lak lau lse lsv r) lg)
    ∧ (field h params "body" = VUndef →
       ∃ lb, body = VRef lb ∧ h !! lb = None ∧ h0 = <[lb := OObject []]> h)
    ∧ (field h params "body" ≠ VUndef →
       body = field h params "body" ∧ h0 = h)
    ∧ NoDup [lba; lak; lau; lse; lsv; r]
    ∧ Forall (λ l, h0 !! l = None) [lba; lak; lau; lse; lsv; r].
Proof.
  intros Hp. unfold createRequestOptions. run.
  rewrite !get_prop_run by done. simpl.
  set (t := field h params "tenantId"). set (k := field h params "apiKey").
  set (a := field h params "accessToken"). set (b := field h params "body").
  assert (Hbody : ∃ body h0,
             default_param b (alloc (OObject [])) (State h lg)
             = Return body (State h0 lg)
             ∧ (b = VUndef →
                ∃ lb, body = VRef lb ∧ h !! lb = None
                      ∧ h0 = <[lb := OObject []]> h)
             ∧ (b ≠ VUndef → body = b ∧ h0 = h)).
  { destruct b; simpl; try (by eexists _, _).
    eexists _, _. split; [reflexivity|]. split; [|done]. eexists. split; [done|].
    split; [apply fresh_lookup|done]. }
  destruct Hbody as (body & h0 & -> & Hb1 & Hb2). unfold alloc. simpl.
  pose proof (fresh_lookup h0) as F1.
  set (l1 := fresh (dom h0)) in *.
  pose proof (fresh_lookup (<[l1 := OObject [("value", a)]]> h0)) as F2.
  set (l2 := fresh (dom (<[l1 := _]> h0))) in *.
  pose proof (fresh_lookup (<[l2 := OObject [("value", k)]]>
                              (<[l1 := OObject [("value", a)]]> h0))) as F3.
  set (l3 := fresh (dom (<[l2 := _]> _))) in *.
  pose proof (fresh_lookup
                (<[l3 := OObject [("BearerAuth", VRef l1); ("ApiKeyAuth", VRef l2)]]>
                   (<[l2 := OObject [("value", k)]]>
                      (<[l1 := OObject [("value", a)]]> h0)))) as F4.
  set (l4 := fresh (dom (<[l3 := _]> _))) in *.
  pose proof (fresh_lookup
                (<[l4 := OObject [("authorized", VRef l3)]]>
                   (<[l3 := OObject [("BearerAuth", VRef l1); ("ApiKeyAuth", VRef l2)]]>
                      (<[l2 := OObject [("value", k)]]>
                         (<[l1 := OObject [("value", a)]]> h0))))) as F5.
  set (l5 := fresh (dom (<[l4 := _]> _))) in *.
  pose proof (fresh_lookup
                (<[l5 := OObject [("ORGANIZATION", t)]]>
                   (<[l4 := OObject [("authorized", VRef l3)]]>
                      (<[l3 := OObject [("BearerAuth", VRef l1); ("ApiKeyAuth", VRef l2)]]>
                         (<[l2 := OObject [("value", k)]]>
                            (<[l1 := OObject [("value", a)]]> h0)))))) as F6.
  set (l6 := fresh (dom (<[l5 := _]> _))) in *.
  repeat match goal with
         | H : <[_ := _]> _ !! _ = None |- _ =>
             apply lookup_insert_None in H as [H ?]
         end.
  exists body, h0, l1, l2, l3, l4, l5, l6.
  split; [done|]. split; [exact Hb1|]. split; [exact Hb2|]. split.
  - repeat (apply NoDup_cons; split;
            [rewrite ?not_elem_of_cons; repeat split;
             first [done | apply not_elem_of_nil]|]).
    apply NoDup_nil_2.
  - repeat (apply Forall_cons; split; [done|]). apply Forall_nil_2.
Qed.

Lemma request_options_heap_lookup h0 body t k a lba lak lau lse lsv r :
  NoDup [lba; lak; lau; lse; lsv; r] →
  let h' := request_options_heap h0 body t k a lba lak lau lse lsv r in
  h' !! r = Some (OObject [("requestBody", body); ("securities", VRef lse);
                           ("serverVariables", VRef lsv)])
  ∧ h' !! lsv = Some (OObject [("ORGANIZATION", t)])
  ∧ h' !! lse = Some (OObject [("authorized", VRef lau)])
  ∧ h' !! lau = Some (OObject [("BearerAuth", VRef lba); ("ApiKeyAuth", VRef lak)])
  ∧ h' !! lak = Some (OObject [("value", k)])
  ∧ h' !! lba = Some (OObject [("value", a)])
  ∧ (∀ l, l ∉ [lba; lak; lau; lse; lsv; r] → h' !! l = h0 !! l).
Proof.
  intros Hnd h'. unfold h', request_options_heap.
  repeat match goal with
         | H : NoDup (_ :: _) |- _ => apply NoDup_cons in H as [? H]
         end.
  repeat match goal with
         | H : _ ∉ _ :: _ |- _ => apply not_elem_of_cons in H as [? H]
         end.
  repeat split; try by simplify_map_eq.
  intros l Hl.
  repeat match goal with
         | H : _ ∉ _ :: _ |- _ => apply not_elem_of_cons in H as [? H]
         end.
  by simplify_map_eq.
Qed.

(** X5.  Every call of createRequestOptions builds its own objects: of two
    calls in a row the second returns a record other than the first and
    leaves the first as it was, and when both omit the body each gets an
    empty body of its own, so that what is later stored in one request
    body never shows in the other. *)
Theorem createRequestOptions_fresh_per_call p1 p2 h lg :
  non_nullish p1 = true →
  non_nullish p2 = true →
  ∃ r1 h1 r2 h2,
    createRequestOptions p1 (State h lg) = Return (VRef r1) (State h1 lg)
    ∧ createRequestOptions p2 (State h1 lg) = Return (VRef r2) (State h2 lg)
    ∧ r1 ≠ r2
    ∧ h2 !! r1 = h1 !! r1
    ∧ (field h p1 "body" = VUndef → field h1 p2 "body" = VUndef →
       ∃ b1 b2,
         field h2 (VRef r1) "requestBody" = VRef b1
         ∧ field h2 (VRef r2) "requestBody" = VRef b2
         ∧ b1 ≠ b2
         ∧ h2 !! b1 = Some (OObject [])
         ∧ h2 !! b2 = Some (OObject [])
         ∧ ∀ k v, field (store_prop h2 b1 k v) (VRef b2) k = VUndef).
Proof.
  intros Hp1 Hp2.
  destruct (createRequestOptions_run h lg p1 Hp1)
    as (r1 & h1 & body1 & Hrun1 & Hsub1 & Hnew1 & Hb1 & (ls1 & lv1 & Hr1) & _).
  destruct (createRequestOptions_run h1 lg p2 Hp2)
    as (r2 & h2 & body2 & Hrun2 & Hsub2 & Hnew2 & Hb2 & (ls2 & lv2 & Hr2) & _).
  exists r1, h1, r2, h2. split; [done|]. split; [done|].
  assert (Hr12 : h2 !! r1 = h1 !! r1).
  { rewrite Hr1. eapply lookup_weaken; [exact Hr1|done]. }
  split; [congruence|]. split; [done|].
  intros Hu1 Hu2. rewrite Hu1 in Hb1. rewrite Hu2 in Hb2.
  destruct Hb1 as (b1 & -> & Hn1 & Hl1). destruct Hb2 as (b2 & -> & Hn2 & Hl2).
  assert (Hl1' : h2 !! b1 = Some (OObject []))
    by (eapply lookup_weaken; [exact Hl1|done]).
  assert (Hne : b1 ≠ b2) by congruence.
  exists b1, b2.
  split; [unfold field; simpl; by rewrite Hr12, Hr1|].
  split; [unfold field; simpl; by rewrite Hr2|].
  split; [done|]. split; [done|]. split; [done|].
  intros k v. unfold store_prop, field. rewrite Hl1'. simpl.
  by rewrite lookup_insert_ne, Hl2.
Qed.

(** X6.  The request options share no record with the heap they were built
    in: their six records are new, so whatever is later done to the
    objects that were there before the call, the argument included, the
    options keep their shape and the credentials read at the call. *)
Theorem createRequestOptions_isolated h lg params :
  non_nullish params = true →
  ∃ r h' body,
    createRequestOptions params (State h lg) = Return (VRef r) (State h' lg)
    ∧ (field h params "body" ≠ VUndef → body = field h params "body")
    ∧ ∀ h'', (∀ l, h !! l = None → h'' !! l = h' !! l) →
        has_shape h'' (VRef r)
          (request_options_shape (SVal body) (field h params "tenantId")
             (field h params "apiKey") (field h params "accessToken")).
Proof.
  intros Hp.
  destruct (createRequestOptions_layout h lg params Hp)
    as (body & h0 & lba & lak & lau & lse & lsv & r
        & Hrun & Hdef & Hsup & Hnd & Hnew).
  destruct (request_options_heap_lookup h0 body (field h params "tenantId")
              (field h params "apiKey") (field h params "accessToken")
              lba lak lau lse lsv r Hnd)
    as (Lr & Lsv & Lse & Lau & Lak & Lba & _).
  eexists r, _, body. split; [exact Hrun|]. split; [by intros []%Hsup|].
  intros h'' Hsame.
  assert (Hold : ∀ l, h0 !! l = None → h !! l = None).
  { intros l Hl. destruct (decide (field h params "body" = VUndef)) as [Hu|Hu].
    - destruct (Hdef Hu) as (lb & _ & _ & ->).
      by apply lookup_insert_None in Hl as [? _].
    - by destruct (Hsup Hu) as [_ <-]. }
  repeat match goal with
         | H : Forall _ (_ :: _) |- _ => apply Forall_cons in H as [?%Hold%Hsame H]
         end.
  assert (h'' !! r = Some (OObject [("requestBody", body); ("securities", VRef lse);
                                    ("serverVariables", VRef lsv)])) by congruence.
  assert (h'' !! lsv = Some (OObject [("ORGANIZATION", field h params "tenantId")]))
    by congruence.
  assert (h'' !! lse = Some (OObject [("authorized", VRef lau)])) by congruence.
  assert (h'' !! lau = Some (OObject [("BearerAuth", VRef lba); ("ApiKeyAuth", VRef lak)]))
    by congruence.
  assert (h'' !! lak = Some (OObject [("value", field h params "apiKey")]))
    by congruence.
  assert (h'' !! lba = Some (OObject [("value", field h params "accessToken")]))
    by congruence.
  unfold request_options_shape. shape.
Qed.

(** X7.  createRequestOptions raises exactly when its argument is
    [undefined] or [null]: a TypeError, raised before anything is
    allocated or logged. *)
Theorem createRequestOptions_raises_exactly params h lg :
  (raises (createRequestOptions params (State h lg)) = true
   ↔ non_nullish params = false)
  ∧ (∀ x s', createRequestOptions params (State h lg) = Throw x s' →
             x = TypeError ∧ s' = State h lg).
Proof.
  destruct (non_nullish params) eqn:Hp.
  - destruct (createRequestOptions_run h lg params Hp)
      as (r & h' & body & -> & _).
    by split.
  - assert (Hrun : createRequestOptions params (State h lg)
                   = Throw TypeError (State h lg)) by (by destruct params).
    rewrite Hrun. split; [done|]. by intros x s' [= <- <-].
Qed.

Lemma snapshot_props_all rec props ms :
  Forall2 (λ p m, p.1 = m.1 ∧ rec p.2 = inr (Some m.2)) props ms →
  snapshot_props rec props = inr ms.
Proof.
  induction 1 as [|[k v] [k' j] props ms [Hk Hv] _ IH]; simpl in *; [done|].
  rewrite Hv, IH. by subst.
Qed.

(** Serialising a record whose members all serialise to a value. *)
Lemma snapshot_go_record depth (rem : heap) l props ms :
  rem !! l = Some (OObject props) →
  Forall2 (λ p m, p.1 = m.1
                  ∧ snapshot_go depth (delete l rem) p.2 = inr (Some m.2))
          props ms →
  snapshot_go (S depth) rem (VRef l) = inr (Some (JObj ms)).
Proof.
  intros Hl Hall. rewrite (snapshot_go_object _ _ _ _ Hl).
  by rewrite (snapshot_props_all _ props ms).
Qed.

Lemma snapshot_go_str depth (rem : heap) s :
  snapshot_go depth rem (VStr s) = inr (Some (JStr s)).
Proof. by destruct depth. Qed.

(** Serialise a tree of records from the lookups it needs. *)
Ltac snap :=
  repeat first
    [ apply List.Forall2_nil
    | apply List.Forall2_cons; [split; [reflexivity|]; cbn [fst snd]|]
    | apply snapshot_go_str
    | eapply snapshot_go_record;
      [rewrite ?lookup_delete_ne by congruence; eassumption |] ].

(** X8.  The request options built from a string tenantId, apiKey and
    accessToken and no body serialise, with any indentation, to the JSON
    document [{requestBody: {}, securities: {authorized: {BearerAuth:
    {value: accessToken}, ApiKeyAuth: {value: apiKey}}}, serverVariables:
    {ORGANIZATION: tenantId}}], so requestInterceptor logs them,
    credentials included, and hands them back without raising. *)
Theorem createRequestOptions_serialises h lg params tenantId apiKey accessToken :
  Get h params "tenantId" = inr (VStr tenantId) →
  Get h params "apiKey" = inr (VStr apiKey) →
  Get h params "accessToken" = inr (VStr accessToken) →
  Get h params "body" = inr VUndef →
  ∃ r h',
    createRequestOptions params (State h lg) = Return (VRef r) (State h' lg)
    ∧ (∀ gap, JSON_stringify h' gap (VRef r)
              = inr (VStr (print_json gap EmptyString
                             (request_options_json tenantId apiKey accessToken))))
    ∧ requestInterceptor (VRef r) (State h' lg)
      = Return (VRef r)
          (State h' (lg ++ ["REQUEST:" +:+ nl +:+ " "
                            +:+ print_json "  " EmptyString
                                  (request_options_json tenantId apiKey accessToken)])).
Proof.
  intros [Hp Ht]%Get_non_nullish [_ Hk]%Get_non_nullish
         [_ Ha]%Get_non_nullish [_ Hb]%Get_non_nullish.
  destruct (createRequestOptions_layout h lg params Hp)
    as (body & h0 & lba & lak & lau & lse & lsv & r
        & Hrun & Hdef & _ & Hnd & Hnew).
  destruct (Hdef (eq_sym Hb)) as (lb & -> & Hlb & ->).
  rewrite <- Ht, <- Hk, <- Ha in Hrun.
  set (h' := request_options_heap _ _ _ _ _ _ _ _ _ _ _) in Hrun.
  destruct (request_options_heap_lookup (<[lb := OObject []]> h) (VRef lb)
              (VStr tenantId) (VStr apiKey) (VStr accessToken)
              lba lak lau lse lsv r Hnd)
    as (Lr & Lsv & Lse & Lau & Lak & Lba & Lother).
  fold h' in Lr, Lsv, Lse, Lau, Lak, Lba, Lother.
  assert (Llb : h' !! lb = Some (OObject [])).
  { rewrite Lother; [apply lookup_insert_eq|].
    intros Hin. eapply Forall_forall in Hnew; [|exact Hin].
    by rewrite lookup_insert_eq in Hnew. }
  assert (Hall : Forall (λ l, l ≠ lb) [lba; lak; lau; lse; lsv; r]).
  { eapply Forall_impl; [exact Hnew|]. intros l Hl ->.
    by rewrite lookup_insert_eq in Hl. }
  repeat match goal with
         | H : Forall _ (_ :: _) |- _ => apply Forall_cons in H as [? H]
         end.
  repeat match goal with
         | H : NoDup (_ :: _) |- _ => apply NoDup_cons in H as [? H]
         end.
  repeat match goal with
         | H : _ ∉ _ :: _ |- _ => apply not_elem_of_cons in H as [? H]
         end.
  assert (Hsnap : snapshot h' (VRef r)
                  = inr (Some (request_options_json tenantId apiKey accessToken))).
  { unfold snapshot, stack_depth.
    change (min_stack_depth + stringify_headroom limits)%nat
      with (S (S (S (S (12 + stringify_headroom limits)))))%nat.
    unfold request_options_json. snap. }
  assert (Hjson : ∀ gap, JSON_stringify h' gap (VRef r)
                         = inr (VStr (print_json gap EmptyString
                                        (request_options_json tenantId apiKey
                                           accessToken)))).
  { intros gap. unfold JSON_stringify. by rewrite Hsnap. }
  exists r, h'. split; [exact Hrun|]. split; [exact Hjson|].
  rewrite requestInterceptor_run, Hjson. unfold request_line, stringified.
  by rewrite Hjson.
Qed.

(** ** The interceptors: failures, edge inputs, messages *)

Lemma JSON_stringify_primitive h gap v :
  (∀ l, v ≠ VRef l) →
  JSON_stringify h gap v = inr (match v with
                                | VUndef => VUndef
                                | _ => VStr (primitive_json v)
                                end).
Proof.
  intros Hv. unfold JSON_stringify, snapshot.
  destruct v as [| |[]|n| |l]; try (by destruct stack_depth).
  - destruct stack_depth; simpl; by destruct (Number_finite n).
  - by destruct (Hv l).
Qed.

Lemma stringified_primitive h v :
  (∀ l, v ≠ VRef l) → stringified h v = primitive_json v.
Proof.
  intros Hv. unfold stringified.
  rewrite (JSON_stringify_primitive h "  " v Hv). by destruct v.
Qed.

Lemma responseInterceptor_nullish parse res h lg :
  non_nullish res = false →
  responseInterceptor parse res (State h lg)
  = Throw TypeError (State h (lg ++ [response_line h res])).
Proof.
  intros Hres.
  assert (Hprim : ∀ l, res ≠ VRef l) by (by destruct res).
  pose proof (JSON_stringify_primitive h "  " res Hprim) as Hj.
  pose proof (stringify_printed h res _ Hj) as Hp.
  unfold responseInterceptor, response_line, mbind, M_bind, stringify,
    to_string, lift.
  cbn [st_heap]. rewrite Hj. cbn beta iota. cbn [st_heap]. rewrite Hp.
  by destruct res.
Qed.

(** X9.  requestInterceptor raises exactly on a request from which a
    nesting of objects starts that [JSON.stringify] cannot follow: one
    that is longer than the stack, that meets an object twice (the request
    is circular) or that leaves the heap.  Only an object is such a
    request.  The exception is the one of [JSON.stringify], a TypeError or
    a RangeError, raised before the call to the logger: nothing is logged,
    and the heap is as it was. *)
Theorem requestInterceptor_raises_exactly req h lg :
  (raises (requestInterceptor req (State h lg)) = true
   ↔ ∃ ls, nesting h req ls ∧ blocking stack_depth h ls)
  ∧ (∀ x s', requestInterceptor req (State h lg) = Throw x s' →
             (x = TypeError ∨ x = RangeError)
             ∧ JSON_stringify h "  " req = inl x
             ∧ s' = State h lg
             ∧ ∃ l, req = VRef l).
Proof.
  rewrite <- serializable_false, requestInterceptor_run.
  destruct (JSON_stringify h "  " req) as [y|j] eqn:Hj.
  - assert (Hs : serializable h req = false).
    { destruct (serializable h req) eqn:Hs; [|done].
      apply (JSON_stringify_serializable _ "  ") in Hs as [r Hr]. congruence. }
    split; [by rewrite Hs|].
    intros x s' [= <- <-]. split; [eapply JSON_stringify_exn, Hj|].
    split; [done|]. split; [done|].
    destruct req as [| | | | |l]; eauto;
      by rewrite serializable_primitive in Hs.
  - assert (Hs : serializable h req = true)
      by (apply (JSON_stringify_serializable _ "  "); eauto).
    split; [by rewrite Hs|done].
Qed.

(** X10.  requestInterceptor accepts what is not an object: [undefined],
    [null], a boolean, a number or a string is returned as it is and
    logged as [JSON.stringify] prints it: a string in quotes, [undefined]
    as the word [undefined], a number as the double it is and a number
    that is not finite as [null]. *)
Theorem requestInterceptor_accepts_primitives req h lg :
  (∀ l, req ≠ VRef l) →
  requestInterceptor req (State h lg)
  = Return req (State h (lg ++ ["REQUEST:" +:+ nl +:+ " " +:+ primitive_json req])).
Proof.
  intros Hreq. rewrite requestInterceptor_run. unfold request_line.
  rewrite (JSON_stringify_primitive h "  " req Hreq).
  by rewrite (stringified_primitive h req Hreq).
Qed.

(** X11.  For a response that is neither [undefined] nor [null] and can be
    serialised, responseInterceptor passes the logger the response line
    first and then exactly one data line when [res.ok] is truthy and none
    when it is falsy, whatever the text is and whatever the parser does. *)
Theorem responseInterceptor_message_count parse res h lg :
  non_nullish res = true →
  serializable h res = true →
  ∃ new,
    responseInterceptor parse res (State h lg) = Return res (State h (lg ++ new))
    ∧ head new = Some (response_line h res)
    ∧ length new = if truthy (field h res "ok") then 2%nat else 1%nat.
Proof.
  intros Hres [r Hr]%(JSON_stringify_serializable _ "  ").
  rewrite responseInterceptor_run, Hr by done.
  eexists. split; [reflexivity|]. split; [done|].
  by destruct (truthy (field h res "ok")).
Qed.

(** X12.  When [res.ok] is truthy and [res.text] is missing, [null] or a
    number, the text cannot be decoded: the exception is swallowed, the
    fallback line reads [DATA] followed by the word [undefined], since
    [text] was never assigned, and the response is returned. *)
Theorem responseInterceptor_undecodable_text parse res h lg :
  serializable h res = true →
  truthy (field h res "ok") = true →
  (field h res "text" = VUndef ∨ field h res "text" = VNull
   ∨ ∃ n, field h res "text" = VNum n) →
  responseInterceptor parse res (State h lg)
  = Return res (State h (lg ++ [response_line h res; raw_data_line "undefined"])).
Proof.
  intros [r Hr]%(JSON_stringify_serializable _ "  ") Hok Htext.
  assert (Hres : non_nullish res = true).
  { destruct (non_nullish res) eqn:Hn; [done|].
    by rewrite (field_nullish _ _ _ Hn) in Hok. }
  rewrite responseInterceptor_run, Hr, Hok by done.
  unfold ok_block_line.
  by destruct Htext as [->|[->|[n ->]]].
Qed.

(** X13.  responseInterceptor raises in exactly two cases, both with the
    heap as it was: on a response that [JSON.stringify] cannot serialise
    (the TypeError of a circular response or the RangeError of one nested
    deeper than the stack), before anything is logged; and on [undefined]
    or [null] (a TypeError), after the response line has been logged.
    Nothing that happens inside the [if (res.ok)] block makes it raise. *)
Theorem responseInterceptor_raises_exactly parse res h lg :
  (raises (responseInterceptor parse res (State h lg)) = true
   ↔ non_nullish res = false ∨ serializable h res = false)
  ∧ (∀ x s', responseInterceptor parse res (State h lg) = Throw x s' →
             (serializable h res = false
              ∧ (x = TypeError ∨ x = RangeError)
              ∧ JSON_stringify h "  " res = inl x
              ∧ s' = State h lg)
             ∨ (non_nullish res = false
                ∧ x = TypeError
                ∧ s' = State h (lg ++ [response_line h res]))).
Proof.
  destruct (non_nullish res) eqn:Hres.
  - rewrite responseInterceptor_run by done.
    destruct (JSON_stringify h "  " res) as [y|j] eqn:Hj.
    + assert (Hs : serializable h res = false).
      { destruct (serializable h res) eqn:Hs; [|done].
        apply (JSON_stringify_serializable _ "  ") in Hs as [r Hr]. congruence. }
      split; [split; eauto|].
      intros x s' [= <- <-]. left.
      split; [done|]. split; [eapply JSON_stringify_exn, Hj|done].
    + assert (Hs : serializable h res = true)
        by (apply (JSON_stringify_serializable _ "  "); eauto).
      split; [|done]. split; [done|]. intros [?|?]; congruence.
  - rewrite responseInterceptor_nullish by done.
    split; [split; eauto|].
    intros x s' [= <- <-]. by right.
Qed.

End Engine.

(** * The helpers at work

    Counterexamples, witnesses and worked examples, run on the sample
    heaps with [sample_limits]. *)

(** C1, as stated, fails on an error whose body contains itself: the three
    fields are present and truthy, and [JSON.stringify(response.body)]
    raises the TypeError of a circular structure, which reduceError does
    not catch. *)
Lemma reduceError_circular_body_raises :
  complete_response heap_circular_body (VRef 1%positive) = true
  ∧ reduceError sample_limits (VRef 1%positive) (State heap_circular_body [])
    = Throw TypeError (State heap_circular_body [])
  ∧ ¬ ∃ str s', reduceError sample_limits (VRef 1%positive) (State heap_circular_body [])
                = Return (VStr str) s'.
Proof.
  assert (H : reduceError sample_limits (VRef 1%positive) (State heap_circular_body [])
              = Throw TypeError (State heap_circular_body []))
    by (vm_compute; reflexivity).
  split; [vm_compute; reflexivity|]. split; [exact H|].
  intros (str & s' & H'). rewrite H in H'. discriminate.
Qed.

Lemma reduceError_formats_complete_response_witness :
  complete_response heap_http_error (VRef 1%positive) = true
  ∧ printable sample_limits heap_http_error (VNum 404) = true
  ∧ printable sample_limits heap_http_error (VStr "Not Found") = true
  ∧ serializable sample_limits heap_http_error (VRef 3%positive) = true
  ∧ reduceError sample_limits (VRef 1%positive) (State heap_http_error [])
    = Return (VStr ("404 - Not Found ({" +:+ dquote +:+ "error" +:+ dquote +:+ ":"
                    +:+ dquote +:+ "x" +:+ dquote +:+ "})"))
             (State heap_http_error []).
Proof.
  split; [vm_compute; reflexivity|]. split; [vm_compute; reflexivity|].
  split; [vm_compute; reflexivity|]. split; [vm_compute; reflexivity|].
  destruct (reduceError_formats_complete_response sample_limits heap_http_error []
              (VRef 1%positive) ltac:(vm_compute; reflexivity)) as [Hok _].
  destruct Hok as (s1 & s2 & j & H1 & H2 & Hj & Hrun); [vm_compute; reflexivity..|].
  rewrite Hrun. vm_compute in H1, H2, Hj.
  injection H1 as <-. injection H2 as <-. injection Hj as <-.
  vm_compute. reflexivity.
Defined.

(** C2, as stated, fails on [null]: it carries no response, and reading
    [error.response] raises a TypeError instead of returning the error. *)
Lemma reduceError_null_raises :
  complete_response ∅ VNull = false
  ∧ reduceError sample_limits VNull (State ∅ []) = Throw TypeError (State ∅ [])
  ∧ reduceError sample_limits VNull (State ∅ []) ≠ Return VNull (State ∅ []).
Proof. split; [reflexivity|]. split; [reflexivity|]. discriminate. Qed.

Lemma reduceError_passes_incomplete_through_witness :
  complete_response heap_partial_error (VRef 1%positive) = false
  ∧ reduceError sample_limits (VRef 1%positive) (State heap_partial_error [])
    = Return (VRef 1%positive) (State heap_partial_error []).
Proof.
  split; [vm_compute; reflexivity|].
  apply (reduceError_passes_incomplete_through sample_limits heap_partial_error []
           (VRef 1%positive)).
  vm_compute; reflexivity.
Defined.

Lemma createRequestOptions_builds_request_options_witness :
  (Get heap_params (VRef 1%positive) "tenantId" = inr (VStr "T")
   ∧ Get heap_params (VRef 1%positive) "apiKey" = inr (VStr "K")
   ∧ Get heap_params (VRef 1%positive) "accessToken" = inr (VStr "A")
   ∧ Get heap_params (VRef 1%positive) "body" = inr VUndef)
  ∧ ∃ r h',
      createRequestOptions (VRef 1%positive) (State heap_params [])
      = Return (VRef r) (State h' [])
      ∧ has_shape h' (VRef r)
          (request_options_shape (SObj []) (VStr "T") (VStr "K") (VStr "A")).
Proof.
  split; [repeat split; vm_compute; reflexivity|].
  apply (createRequestOptions_builds_request_options heap_params []
           (VRef 1%positive) (VStr "T") (VStr "K") (VStr "A") VUndef);
    vm_compute; reflexivity.
Defined.

(** C4, as stated, fails when the argument itself is missing: destructuring
    [undefined] raises a TypeError. *)
Lemma createRequestOptions_undefined_raises :
  createRequestOptions VUndef (State ∅ []) = Throw TypeError (State ∅ []).
Proof. reflexivity. Qed.

Lemma createRequestOptions_total_and_pure_witness :
  non_nullish (VRef 1%positive) = true
  ∧ ∃ r h' body,
      createRequestOptions (VRef 1%positive) (State heap_params [])
      = Return (VRef r) (State h' [])
      ∧ heap_params ⊆ h'
      ∧ heap_params !! r = None
      ∧ has_shape h' (VRef r)
          (request_options_shape (SVal body) (VStr "T") (VStr "K") (VStr "A")).
Proof.
  split; [reflexivity|].
  exact (createRequestOptions_total_and_pure heap_params [] (VRef 1%positive)
           eq_refl).
Defined.

Lemma createRequestOptions_shares_body_witness :
  (Get heap_params_body (VRef 1%positive) "body" = inr (VRef 2%positive)
   ∧ heap_params_body !! 2%positive = Some (OObject [("x", VNum 1)]))
  ∧ ∃ r h',
      createRequestOptions (VRef 1%positive) (State heap_params_body [])
      = Return (VRef r) (State h' [])
      ∧ Get h' (VRef r) "requestBody" = inr (VRef 2%positive)
      ∧ (body ← get_prop (VRef r) "requestBody"; get_prop body "x")
          (State (store_prop h' 2%positive "x" (VNum 2)) [])
        = Return (VNum 2) (State (store_prop h' 2%positive "x" (VNum 2)) []).
Proof.
  split; [split; vm_compute; reflexivity|].
  destruct (createRequestOptions_shares_body heap_params_body []
              (VRef 1%positive) 2%positive (OObject [("x", VNum 1)]))
    as (r & h' & Hrun & Hsame & _ & _ & Hset); [vm_compute; reflexivity..|].
  exists r, h'. split; [exact Hrun|]. split; [exact Hsame|].
  by apply (Hset [("x", VNum 1)]).
Defined.

(** C7, as stated, fails on a request object that contains itself:
    [JSON.stringify(req, null, 2)] raises the TypeError of a circular
    structure before anything is logged or returned. *)
Lemma requestInterceptor_circular_request_raises :
  requestInterceptor sample_limits (VRef 1%positive) (State heap_request_circular [])
  = Throw TypeError (State heap_request_circular [])
  ∧ ¬ ∃ s', requestInterceptor sample_limits (VRef 1%positive) (State heap_request_circular [])
            = Return (VRef 1%positive) s'.
Proof.
  assert (H : requestInterceptor sample_limits (VRef 1%positive) (State heap_request_circular [])
              = Throw TypeError (State heap_request_circular []))
    by (vm_compute; reflexivity).
  split; [exact H|]. intros [s' H']. rewrite H in H'. discriminate.
Qed.

Lemma requestInterceptor_returns_request_witness :
  serializable sample_limits heap_request (VRef 1%positive) = true
  ∧ requestInterceptor sample_limits (VRef 1%positive) (State heap_request [])
    = Return (VRef 1%positive)
        (State heap_request [request_line sample_limits heap_request (VRef 1%positive)]).
Proof.
  split; [vm_compute; reflexivity|].
  apply (requestInterceptor_returns_request sample_limits (VRef 1%positive) heap_request []).
  vm_compute; reflexivity.
Defined.

(** C5, as stated, fails on [null]: the call logs [RESPONSE: null] and
    then raises a TypeError when it reads [res.ok], outside the [try]. *)
Lemma responseInterceptor_null_raises :
  responseInterceptor sample_limits JSON_parse_fragment VNull (State ∅ [])
  = Throw TypeError (State ∅ ["RESPONSE:" +:+ nl +:+ " null"]).
Proof. vm_compute; reflexivity. Qed.

Lemma responseInterceptor_never_raises_witness :
  non_nullish (VRef 1%positive) = true
  ∧ serializable sample_limits heap_response_text (VRef 1%positive) = true
  ∧ JSON_parse_fragment "not json" = None
  ∧ ∃ lg', responseInterceptor sample_limits JSON_parse_fragment (VRef 1%positive)
             (State heap_response_text [])
           = Return (VRef 1%positive) (State heap_response_text lg').
Proof.
  split; [reflexivity|]. split; [vm_compute; reflexivity|].
  split; [vm_compute; reflexivity|].
  apply (responseInterceptor_never_raises sample_limits JSON_parse_fragment (VRef 1%positive)
           heap_response_text []); vm_compute; reflexivity.
Defined.

(** C6, as stated, fails on a response that contains itself, even with
    [ok] true and a body that is valid JSON: [JSON.stringify(res, null, 2)]
    raises and the response is not returned. *)
Lemma responseInterceptor_circular_response_raises :
  field heap_response_circular (VRef 1%positive) "ok" = VBool true
  ∧ (∃ parsed, JSON_parse_fragment json_text = Some parsed)
  ∧ responseInterceptor sample_limits JSON_parse_fragment (VRef 1%positive)
      (State heap_response_circular [])
    = Throw TypeError (State heap_response_circular [])
  ∧ ¬ ∃ s', responseInterceptor sample_limits JSON_parse_fragment (VRef 1%positive)
              (State heap_response_circular [])
            = Return (VRef 1%positive) s'.
Proof.
  assert (H : responseInterceptor sample_limits JSON_parse_fragment (VRef 1%positive)
                (State heap_response_circular [])
              = Throw TypeError (State heap_response_circular []))
    by (vm_compute; reflexivity).
  split; [vm_compute; reflexivity|].
  split; [eexists; vm_compute; reflexivity|].
  split; [exact H|]. intros [s' H']. rewrite H in H'. discriminate.
Qed.

Lemma responseInterceptor_returns_response_witness :
  non_nullish (VRef 1%positive) = true
  ∧ serializable sample_limits heap_response_json (VRef 1%positive) = true
  ∧ responseInterceptor sample_limits JSON_parse_fragment (VRef 1%positive)
      (State heap_response_json [])
    = Return (VRef 1%positive)
        (State heap_response_json
           [response_line sample_limits heap_response_json (VRef 1%positive);
            data_line (JObj [("a", JNum "1")])]).
Proof.
  split; [reflexivity|]. split; [vm_compute; reflexivity|].
  destruct (responseInterceptor_returns_response sample_limits JSON_parse_fragment
              (VRef 1%positive) heap_response_json [])
    as (_ & Hjson & _); [reflexivity|vm_compute; reflexivity|].
  apply (Hjson json_text (JObj [("a", JNum "1")])); vm_compute; reflexivity.
Defined.

Example responseInterceptor_deep_text :
  (∃ parsed, JSON_parse_fragment deep_json_text = Some parsed
             ∧ json_depth parsed = 17%nat)
  ∧ try_block sample_limits JSON_parse_fragment (VRef 1%positive)
      (State heap_response_deep [])
    = (VStr deep_json_text, Throw RangeError (State heap_response_deep []))
  ∧ responseInterceptor sample_limits JSON_parse_fragment (VRef 1%positive)
      (State heap_response_deep [])
    = Return (VRef 1%positive)
        (State heap_response_deep
           [response_line sample_limits heap_response_deep (VRef 1%positive);
            raw_data_line deep_json_text]).
Proof.
  split; [|split; vm_compute; reflexivity].
  eexists. split; vm_compute; reflexivity.
Qed.

Example responseInterceptor_without_text :
  responseInterceptor sample_limits JSON_parse_fragment (VRef 1%positive)
    (State heap_response_no_text [])
  = Return (VRef 1%positive)
      (State heap_response_no_text
         [response_line sample_limits heap_response_no_text (VRef 1%positive);
          raw_data_line "undefined"]).
Proof. vm_compute; reflexivity. Qed.

(** C8, as stated, fails on a response with [ok] true and no text:
    [res.text.toString('utf-8')] raises inside the [try] before [text] is
    assigned, no parse is attempted, and the fallback line logs the
    unassigned variable as [undefined]. *)
Lemma responseInterceptor_fallback_logs_undefined :
  truthy (field heap_response_no_text (VRef 1%positive) "ok") = true
  ∧ try_block sample_limits JSON_parse_fragment (VRef 1%positive) (State heap_response_no_text [])
    = (VUndef, Throw TypeError (State heap_response_no_text []))
  ∧ responseInterceptor sample_limits JSON_parse_fragment (VRef 1%positive)
      (State heap_response_no_text [])
    = Return (VRef 1%positive)
        (State heap_response_no_text
           [response_line sample_limits heap_response_no_text (VRef 1%positive);
            "DATA" +:+ nl +:+ " undefined"]).
Proof. repeat split; vm_compute; reflexivity. Qed.

Lemma responseInterceptor_fallback_logs_decoded_text_witness :
  (truthy (field heap_response_text (VRef 1%positive) "ok") = true
   ∧ toString_utf8 sample_limits heap_response_text
       (field heap_response_text (VRef 1%positive) "text") = inr "not json"
   ∧ JSON_parse_fragment "not json" = None)
  ∧ try_block sample_limits JSON_parse_fragment (VRef 1%positive) (State heap_response_text [])
    = (VStr "not json", Throw SyntaxError (State heap_response_text []))
  ∧ responseInterceptor sample_limits JSON_parse_fragment (VRef 1%positive)
      (State heap_response_text [])
    = Return (VRef 1%positive)
        (State heap_response_text
           [response_line sample_limits heap_response_text (VRef 1%positive);
            raw_data_line "not json"]).
Proof.
  split; [repeat split; vm_compute; reflexivity|].
  destruct (responseInterceptor_fallback_logs_decoded_text sample_limits JSON_parse_fragment
              (VRef 1%positive) heap_response_text [])
    as [Hparse _]; [vm_compute; reflexivity|].
  destruct (Hparse "not json") as (Htry & _ & Hrun); [vm_compute; reflexivity..|].
  split; [exact Htry|]. apply Hrun. vm_compute; reflexivity.
Defined.

(** ** Worked examples *)

Example JSON_stringify_compact :
  JSON_stringify sample_limits heap_http_error EmptyString (VRef 2%positive)
  = inr (VStr ("{" +:+ dquote +:+ "status" +:+ dquote +:+ ":404,"
               +:+ dquote +:+ "statusText" +:+ dquote +:+ ":"
               +:+ dquote +:+ "Not Found" +:+ dquote +:+ ","
               +:+ dquote +:+ "body" +:+ dquote +:+ ":{"
               +:+ dquote +:+ "error" +:+ dquote +:+ ":"
               +:+ dquote +:+ "x" +:+ dquote +:+ "}}")).
Proof. vm_compute; reflexivity. Qed.

Example JSON_stringify_indented :
  JSON_stringify sample_limits heap_request "  " (VRef 1%positive)
  = inr (VStr ("{" +:+ nl
               +:+ "  " +:+ dquote +:+ "method" +:+ dquote +:+ ": "
               +:+ dquote +:+ "GET" +:+ dquote +:+ "," +:+ nl
               +:+ "  " +:+ dquote +:+ "url" +:+ dquote +:+ ": "
               +:+ dquote +:+ "/profile" +:+ dquote +:+ nl +:+ "}")).
Proof. vm_compute; reflexivity. Qed.

Example JSON_stringify_undefined :
  JSON_stringify sample_limits ∅ "  " VUndef = inr VUndef.
Proof. reflexivity. Qed.

Example JSON_stringify_circular :
  JSON_stringify sample_limits heap_request_circular "  " (VRef 1%positive) = inl TypeError.
Proof. vm_compute; reflexivity. Qed.

Example nesting_circular :
  nesting heap_request_circular (VRef 1%positive) [1%positive; 1%positive]
  ∧ blocking (stack_depth sample_limits) heap_request_circular
      [1%positive; 1%positive].
Proof.
  split.
  - apply (nesting_step _ 1%positive
             (OObject [("method", VStr "GET"); ("self", VRef 1%positive)])
             (VRef 1%positive) [1%positive]);
      [vm_compute; reflexivity| |constructor].
    simpl. right. left.
  - right. left. intros Hnd. inversion Hnd as [|? ? Hnot _]; subst.
    apply Hnot. left.
Qed.

Example reduceError_string_error :
  reduceError sample_limits (VStr "socket hang up") (State ∅ [])
  = Return (VStr "socket hang up") (State ∅ []).
Proof. reflexivity. Qed.

Example reduceError_no_argument :
  reduceError sample_limits VUndef (State ∅ [])
  = Return (VRef 1%positive) (State {[1%positive := OObject []]} []).
Proof. vm_compute; reflexivity. Qed.

Example createRequestOptions_null_raises :
  createRequestOptions VNull (State ∅ []) = Throw TypeError (State ∅ []).
Proof. reflexivity. Qed.

Example requestInterceptor_undefined :
  requestInterceptor sample_limits VUndef (State ∅ [])
  = Return VUndef (State ∅ ["REQUEST:" +:+ nl +:+ " undefined"]).
Proof. vm_compute; reflexivity. Qed.

Example responseInterceptor_failed_response :
  responseInterceptor sample_limits JSON_parse_fragment (VRef 1%positive)
    (State heap_response_failed [])
  = Return (VRef 1%positive)
      (State heap_response_failed
         [response_line sample_limits heap_response_failed (VRef 1%positive)]).
Proof. vm_compute; reflexivity. Qed.

Example responseInterceptor_parsed_line :
  data_line (JObj [("a", JNum "1")])
  = "DATA" +:+ nl +:+ ", {" +:+ nl +:+ "  " +:+ dquote +:+ "a" +:+ dquote
      +:+ ": 1" +:+ nl +:+ "}".
Proof. vm_compute; reflexivity. Qed.

Example JSON_stringify_nested :
  JSON_stringify sample_limits (heap_nested_from 1 16) EmptyString (VRef 1%positive)
  = inr (VStr "[[[[[[[[[[[[[[[[]]]]]]]]]]]]]]]]")
  ∧ JSON_stringify sample_limits (heap_nested_from 1 17) EmptyString (VRef 1%positive)
    = inl RangeError.
Proof. split; vm_compute; reflexivity. Qed.

Example reduceError_large_status :
  reduceError sample_limits (VRef 1%positive)
    (State (<[2%positive := OObject [("status", VNum (2 ^ 64)); ("statusText", VStr "E");
                                     ("body", VNum (10 ^ 21))]]> heap_http_error) [])
  = Return (VStr "18446744073709552000 - E (1e+21)")
      (State (<[2%positive := OObject [("status", VNum (2 ^ 64)); ("statusText", VStr "E");
                                       ("body", VNum (10 ^ 21))]]> heap_http_error) []).
Proof. vm_compute; reflexivity. Qed.

Example ToString_nested :
  ToString sample_limits (heap_nested_from 1 16) (VRef 1%positive) = inr EmptyString
  ∧ ToString sample_limits (heap_nested_from 1 17) (VRef 1%positive) = inl RangeError.
Proof. split; vm_compute; reflexivity. Qed.

Example ToString_hidden_toString :
  ToString sample_limits {[1%positive := OObject [("toString", VNum 1)]]} (VRef 1%positive)
  = inl TypeError
  ∧ ToString sample_limits {[1%positive := OObject [("x", VNum 1)]]} (VRef 1%positive)
    = inr "[object Object]".
Proof. split; vm_compute; reflexivity. Qed.

Example Number_toString_samples :
  Number_toString 404 = "404"
  ∧ Number_toString (2 ^ 53 + 1) = "9007199254740992"
  ∧ Number_toString (2 ^ 64) = "18446744073709552000"
  ∧ Number_toString (10 ^ 21) = "1e+21"
  ∧ Number_toString (- (10 ^ 23)) = "-1e+23"
  ∧ Number_toString (123456789012345678901234567890) = "1.2345678901234568e+29"
  ∧ Number_toString (2 ^ 1024) = "Infinity".
Proof. repeat split; vm_compute; reflexivity. Qed.

Lemma reduceError_returns_argument_or_string_witness :
  VRef 1%positive ≠ VUndef
  ∧ reduceError sample_limits (VRef 1%positive) (State heap_partial_error [])
    = Return (VRef 1%positive) (State heap_partial_error [])
  ∧ complete_response heap_partial_error (VRef 1%positive) = false.
Proof.
  assert (Hrun : reduceError sample_limits (VRef 1%positive) (State heap_partial_error [])
                 = Return (VRef 1%positive) (State heap_partial_error []))
    by (vm_compute; reflexivity).
  split; [done|]. split; [exact Hrun|].
  destruct (reduceError_returns_argument_or_string sample_limits (VRef 1%positive)
              heap_partial_error [] (VRef 1%positive)
              (State heap_partial_error []) ltac:(done) Hrun)
    as [_ [[Hc _]|[Hc _]]]; [exact Hc|].
  vm_compute in Hc. discriminate Hc.
Defined.

Lemma reduceError_reads_three_fields_witness :
  complete_response heap_two_errors (VRef 1%positive) = true
  ∧ reduceError sample_limits (VRef 4%positive) (State heap_two_errors [])
    = reduceError sample_limits (VRef 1%positive) (State heap_two_errors []).
Proof.
  split; [vm_compute; reflexivity|].
  apply (reduceError_reads_three_fields sample_limits (VRef 1%positive) (VRef 4%positive)
           heap_two_errors []); vm_compute; reflexivity.
Defined.

Lemma createRequestOptions_fresh_per_call_witness :
  non_nullish (VRef 1%positive) = true
  ∧ ∃ r1 h1 r2 h2,
      createRequestOptions (VRef 1%positive) (State heap_params [])
      = Return (VRef r1) (State h1 [])
      ∧ createRequestOptions (VRef 1%positive) (State h1 [])
        = Return (VRef r2) (State h2 [])
      ∧ r1 ≠ r2.
Proof.
  split; [reflexivity|].
  destruct (createRequestOptions_fresh_per_call (VRef 1%positive)
              (VRef 1%positive) heap_params [] eq_refl eq_refl)
    as (r1 & h1 & r2 & h2 & H1 & H2 & Hne & _).
  by exists r1, h1, r2, h2.
Defined.

Lemma createRequestOptions_isolated_witness :
  non_nullish (VRef 1%positive) = true
  ∧ ∃ r h' body,
      createRequestOptions (VRef 1%positive) (State heap_params [])
      = Return (VRef r) (State h' [])
      ∧ has_shape (<[1%positive := OObject [("apiKey", VStr "other")]]> h') (VRef r)
          (request_options_shape (SVal body) (VStr "T") (VStr "K") (VStr "A")).
Proof.
  split; [reflexivity|].
  destruct (createRequestOptions_isolated heap_params [] (VRef 1%positive) eq_refl)
    as (r & h' & body & Hrun & _ & Hiso).
  exists r, h', body. split; [exact Hrun|].
  apply Hiso. intros l Hl.
  apply lookup_insert_ne. intros <-. vm_compute in Hl. discriminate Hl.
Defined.

Lemma createRequestOptions_serialises_witness :
  (Get heap_params (VRef 1%positive) "tenantId" = inr (VStr "T")
   ∧ Get heap_params (VRef 1%positive) "apiKey" = inr (VStr "K")
   ∧ Get heap_params (VRef 1%positive) "accessToken" = inr (VStr "A")
   ∧ Get heap_params (VRef 1%positive) "body" = inr VUndef)
  ∧ ∃ r h',
      createRequestOptions (VRef 1%positive) (State heap_params [])
      = Return (VRef r) (State h' [])
      ∧ JSON_stringify sample_limits h' EmptyString (VRef r)
        = inr (VStr ("{" +:+ dquote +:+ "requestBody" +:+ dquote +:+ ":{},"
                     +:+ dquote +:+ "securities" +:+ dquote +:+ ":{"
                     +:+ dquote +:+ "authorized" +:+ dquote +:+ ":{"
                     +:+ dquote +:+ "BearerAuth" +:+ dquote +:+ ":{"
                     +:+ dquote +:+ "value" +:+ dquote +:+ ":"
                     +:+ dquote +:+ "A" +:+ dquote +:+ "},"
                     +:+ dquote +:+ "ApiKeyAuth" +:+ dquote +:+ ":{"
                     +:+ dquote +:+ "value" +:+ dquote +:+ ":"
                     +:+ dquote +:+ "K" +:+ dquote +:+ "}}},"
                     +:+ dquote +:+ "serverVariables" +:+ dquote +:+ ":{"
                     +:+ dquote +:+ "ORGANIZATION" +:+ dquote +:+ ":"
                     +:+ dquote +:+ "T" +:+ dquote +:+ "}}")).
Proof.
  split; [repeat split; vm_compute; reflexivity|].
  destruct (createRequestOptions_serialises sample_limits heap_params [] (VRef 1%positive)
              "T" "K" "A")
    as (r & h' & Hrun & Hjson & _); [vm_compute; reflexivity..|].
  exists r, h'. split; [exact Hrun|]. rewrite Hjson. vm_compute. reflexivity.
Defined.

Lemma requestInterceptor_accepts_primitives_witness :
  (∀ l, VUndef ≠ VRef l)
  ∧ requestInterceptor sample_limits VUndef (State heap_request [])
    = Return VUndef (State heap_request ["REQUEST:" +:+ nl +:+ " undefined"]).
Proof.
  split; [done|].
  exact (requestInterceptor_accepts_primitives sample_limits VUndef heap_request []
           ltac:(done)).
Defined.

Lemma responseInterceptor_message_count_witness :
  non_nullish (VRef 1%positive) = true
  ∧ serializable sample_limits heap_response_failed (VRef 1%positive) = true
  ∧ ∃ new,
      responseInterceptor sample_limits JSON_parse_fragment (VRef 1%positive)
        (State heap_response_failed [])
      = Return (VRef 1%positive) (State heap_response_failed new)
      ∧ length new = 1%nat.
Proof.
  split; [reflexivity|]. split; [vm_compute; reflexivity|].
  destruct (responseInterceptor_message_count sample_limits JSON_parse_fragment
              (VRef 1%positive) heap_response_failed [])
    as (new & Hrun & _ & Hlen); [reflexivity|vm_compute; reflexivity|].
  exists new. split; [exact Hrun|exact Hlen].
Defined.

Lemma responseInterceptor_undecodable_text_witness :
  (serializable sample_limits heap_response_number (VRef 1%positive) = true
   ∧ truthy (field heap_response_number (VRef 1%positive) "ok") = true
   ∧ field heap_response_number (VRef 1%positive) "text" = VNum 42)
  ∧ responseInterceptor sample_limits JSON_parse_fragment (VRef 1%positive)
      (State heap_response_number [])
    = Return (VRef 1%positive)
        (State heap_response_number
           [response_line sample_limits heap_response_number (VRef 1%positive);
            raw_data_line "undefined"]).
Proof.
  split; [repeat split; vm_compute; reflexivity|].
  apply (responseInterceptor_undecodable_text sample_limits JSON_parse_fragment
           (VRef 1%positive) heap_response_number []);
    [vm_compute; reflexivity..|].
  right. right. by exists 42%Z.
Defined.
